(** * pandas-js: the DataFrame class of src/lib/dataframe.js

    A shallow embedding of the DataFrame class and the properties its
    specification states about it.

    Modelling conventions.
    - JavaScript values are the inductive type [value].  Numbers are
      modelled on the integers (the safe-integer fragment of doubles, on
      which comparison, String() and JSON.stringify are those of the
      decimal notation); the results of mean, median and std are doubles
      and are modelled with the kernel's binary64 floats.
    - Strings are sequences of 8-bit character codes.
    - An object is the ordered list of its own properties (insertion
      order); members inherited from Object.prototype are only modelled
      where data values are used as property keys (the frequency map of
      [mode]).  The further properties at the end of the file assume
      [plain_name] of the names they depend on: not a key made of digits
      only (an object lists such keys first), not an inherited name.
    - Exceptions are the [Throw] outcome of [result]; [TypeError] is the
      error JavaScript itself raises (reading a property of undefined or
      null, calling or iterating a non-function or a non-iterable), and
      [Unmodelled] marks a coercion that leaves the modelled fragment
      (parsing a string as a number, string concatenation by [+]).
    - DataFrame instances live in a heap indexed by locations; methods
      that assign to [this] rewrite the instance in place, methods that
      [return new DataFrame(...)] allocate.  Arrays and records are
      values: no method of the class writes into an array or a record
      that already exists (sortBy sorts a copy, groupBy pushes into the
      buckets it created, median sorts the array #getColumn just built,
      renameColumns and dropColumns assign new arrays), so sharing rows
      between instances is not observable.
    - A parameter with a default ([head(n = 5)], [sortBy(columns,
      ascending = true)]) is an explicit argument of the model; a call
      that omits it passes the default.
    - Functions passed in (the predicate of filter, the reducers of
      aggregate) are total functions without effects. *)

From Stdlib Require Import ZArith Ascii String List Permutation Sorted.
From Stdlib Require Import Uint63 PrimFloat.
From stdpp Require Import base option list strings pretty sorting gmap.

Local Open Scope string_scope.
Local Open Scope Z_scope.
Set Warnings "-register-all,-inexact-float".

(** * The model *)

(** ** Outcomes *)

Inductive error : Type :=
| InvalidInputFormat                       (* Error: Invalid input data format *)
| IndexOutOfRange                          (* Error: Index out of range *)
| ColumnNotFound                           (* Error: Column does not exist *)
| InvalidAggregationFunction (column : string)
| TypeError
| Unmodelled.

Inductive result (A : Type) : Type :=
| Ok (a : A)
| Throw (e : error).
Arguments Ok {A} a.
Arguments Throw {A} e.

Global Instance result_ret : MRet result := λ A a, Ok a.
Global Instance result_bind : MBind result := λ A B f m,
  match m with Ok a => f a | Throw e => Throw e end.
Global Instance result_fmap : FMap result := λ A B f m,
  match m with Ok a => Ok (f a) | Throw e => Throw e end.

Global Instance error_eq_dec : EqDecision error.
Proof. solve_decision. Defined.

(** [array.map(f)] with a callback that may throw. *)
Fixpoint mapR {A B : Type} (f : A → result B) (l : list A) : result (list B) :=
  match l with
  | [] => Ok []
  | x :: l' => y ← f x; ys ← mapR f l'; Ok (y :: ys)
  end.

(** ** Values *)

Inductive value : Type :=
| VUndefined
| VNull
| VBool (b : bool)
| VNum (n : Z)
| VStr (s : string)
| VArr (elems : list value)
| VObj (props : list (string * value)).

Definition value_eq_dec : ∀ v w : value, {v = w} + {v ≠ w}.
Proof.
  fix IH 1. intros v w.
  destruct v, w; try (right; discriminate); try (left; reflexivity).
  - destruct (bool_dec b b0) as [->|N]; [left; reflexivity | right; congruence].
  - destruct (Z.eq_dec n n0) as [->|N]; [left; reflexivity | right; congruence].
  - destruct (string_dec s s0) as [->|N]; [left; reflexivity | right; congruence].
  - destruct (List.list_eq_dec IH elems elems0) as [->|N];
      [left; reflexivity | right; congruence].
  - assert (D : ∀ p q : string * value, {p = q} + {p ≠ q}).
    { intros [k x] [k' y]. destruct (string_dec k k') as [->|N].
      - destruct (IH x y) as [->|N]; [left; reflexivity | right; congruence].
      - right; congruence. }
    destruct (List.list_eq_dec D props props0) as [->|N];
      [left; reflexivity | right; congruence].
Defined.

Global Instance value_eq : EqDecision value := value_eq_dec.

(** Own-property lookup and assignment on an object literal; assignment
    keeps the position of an existing key and appends a new one. *)
Fixpoint prop_get {A : Type} (k : string) (o : list (string * A)) : option A :=
  match o with
  | [] => None
  | (k', v) :: o' => if String.eqb k k' then Some v else prop_get k o'
  end.

Fixpoint prop_set {A : Type} (k : string) (v : A) (o : list (string * A))
  : list (string * A) :=
  match o with
  | [] => [(k, v)]
  | (k', v') :: o' =>
      if String.eqb k k' then (k', v) :: o' else (k', v') :: prop_set k v o'
  end.

(** The index among [0 .. n-1] whose decimal notation is the key [k]. *)
Definition key_index (k : string) (n : nat) : option nat :=
  List.find (λ i, String.eqb (pretty i) k) (seq 0 n).

Fixpoint string_nth (s : string) (i : nat) : option ascii :=
  match s, i with
  | EmptyString, _ => None
  | String c _, O => Some c
  | String _ s', S i' => string_nth s' i'
  end.

(** [v[k]] for a string key [k]. *)
Definition get_prop (v : value) (k : string) : result value :=
  match v with
  | VUndefined | VNull => Throw TypeError
  | VBool _ | VNum _ => Ok VUndefined
  | VStr s =>
      if String.eqb k "length" then Ok (VNum (Z.of_nat (String.length s)))
      else Ok (match key_index k (String.length s) ≫= string_nth s with
               | Some c => VStr (String c EmptyString)
               | None => VUndefined
               end)
  | VArr elems =>
      if String.eqb k "length" then Ok (VNum (Z.of_nat (length elems)))
      else Ok (default VUndefined (key_index k (length elems) ≫= (elems !!.)))
  | VObj props => Ok (default VUndefined (prop_get k props))
  end.

(** [v[i]] for a non-negative integer index. *)
Definition get_index (v : value) (i : nat) : result value :=
  match v with
  | VArr elems => Ok (default VUndefined (elems !! i))
  | _ => get_prop v (pretty i)
  end.

Definition typeof (v : value) : string :=
  match v with
  | VUndefined => "undefined"
  | VNull => "object"
  | VBool _ => "boolean"
  | VNum _ => "number"
  | VStr _ => "string"
  | VArr _ | VObj _ => "object"
  end.

Definition isArray (v : value) : bool :=
  match v with VArr _ => true | _ => false end.

Definition truthy (v : value) : bool :=
  match v with
  | VUndefined | VNull => false
  | VBool b => b
  | VNum n => negb (n =? 0)
  | VStr s => negb (String.eqb s "")
  | VArr _ | VObj _ => true
  end.

(** [Object.keys(v)] for a value that is neither undefined nor null. *)
Definition Object_keys (v : value) : list string :=
  match v with
  | VObj props => props.*1
  | VArr elems => pretty <$> seq 0 (length elems)
  | VStr s => pretty <$> seq 0 (String.length s)
  | _ => []
  end.

(** [Array.from(new Set(l))]: the distinct elements in first-insertion order. *)
Definition set_add {A : Type} `{EqDecision A} (acc : list A) (x : A) : list A :=
  if bool_decide (x ∈ acc) then acc else (acc ++ [x])%list.

Definition Set_values {A : Type} `{EqDecision A} (l : list A) : list A :=
  fold_left set_add l [].

(** ** The DataFrame class *)

Record DataFrame : Type := mkDataFrame {
  columns : list string;
  data : list value;
  dtypes : list (string * string)
}.

Definition set_dtypes (this : DataFrame) (dt : list (string * string)) : DataFrame :=
  {| columns := columns this; data := data this; dtypes := dt |}.

(** #getColumn *)
Definition getColumn (this : DataFrame) (columnName : string) : result (list value) :=
  mapR (λ row, get_prop row columnName) (data this).

(** #detectColumnType *)
Definition detectColumnType (this : DataFrame) (columnName : string) : result string :=
  columnData ← getColumn this columnName;
  let types := Set_values (typeof <$> columnData) in
  Ok (match types with [t] => t | _ => "mixed" end).

(** #detectColumnTypes: the loop over [this.columns], from the accumulator [dtypes]. *)
Fixpoint detectColumnTypes_loop (this : DataFrame) (names : list string)
    (dtypes : list (string * string)) : result (list (string * string)) :=
  match names with
  | [] => Ok dtypes
  | columnName :: rest =>
      t ← detectColumnType this columnName;
      detectColumnTypes_loop this rest (prop_set columnName t dtypes)
  end.

Definition detectColumnTypes (this : DataFrame) : result (list (string * string)) :=
  detectColumnTypes_loop this (columns this) [].

(** [Array.from({length: n}, (_, i) => `column${i + 1}`)] *)
Definition auto_columns (n : nat) : list string :=
  (λ i : nat, "column" +:+ pretty (i + 1)%nat) <$> seq 0 n.

(** [columns.forEach((column, index) => obj[column] = row[index])] *)
Fixpoint fill_record (cols : list string) (index : nat) (row : value)
    (obj : list (string * value)) : result (list (string * value)) :=
  match cols with
  | [] => Ok obj
  | column :: rest =>
      v ← get_index row index;
      fill_record rest (S index) row (prop_set column v obj)
  end.

Definition row_to_record (cols : list string) (row : value) : result value :=
  obj ← fill_record cols 0 row []; Ok (VObj obj).

(** The tail of the constructor: [this.dtypes = this.#detectColumnTypes()]. *)
Definition finish_construction (cols : list string) (rows : list value)
  : result DataFrame :=
  let this := {| columns := cols; data := rows; dtypes := [] |} in
  dt ← detectColumnTypes this; Ok (set_dtypes this dt).

(** [new DataFrame(data, columns)]; an omitted [columns] is [None]. *)
Definition DataFrame_new (data : value) (columns : option (list string))
  : result DataFrame :=
  d0 ← get_index data 0;
  match d0 with
  | VArr first =>
      let cols :=
        match columns with
        | Some cs => if (length cs =? length first)%nat then cs
                     else auto_columns (length first)
        | None => auto_columns (length first)
        end in
      match data with
      | VArr rows => recs ← mapR (row_to_record cols) rows;
                     finish_construction cols recs
      | _ => Throw TypeError
      end
  | _ =>
      match data with
      | VArr rows =>
          match (if truthy d0 then Some (Object_keys d0) else columns) with
          | Some cols => finish_construction cols rows
          | None => Throw TypeError
          end
      | _ => Throw InvalidInputFormat
      end
  end.

(** getDataFrame *)
Definition getDataFrame (this : DataFrame) : list value := data this.

(** [a[i]] on an array for an integer [i]. *)
Definition array_at (l : list value) (i : Z) : value :=
  if i <? 0 then VUndefined else default VUndefined (l !! Z.to_nat i).

Definition getRow (this : DataFrame) (index : Z) : result value :=
  if index >? Z.of_nat (length (data this)) then Throw IndexOutOfRange
  else Ok (array_at (data this) index).

(** [Array.prototype.slice]: a relative index is clamped into [0, len]. *)
Definition slice_bound (len : nat) (k : Z) : nat :=
  if k <? 0 then Z.to_nat (Z.max (Z.of_nat len + k) 0)
  else Z.to_nat (Z.min k (Z.of_nat len)).

Definition js_slice {A : Type} (l : list A) (start : Z) (stop : option Z) : list A :=
  let from := slice_bound (length l) start in
  let to := match stop with
            | Some e => slice_bound (length l) e
            | None => length l
            end in
  take (to - from) (drop from l).

(** head and tail: the rows returned; the same rows go to the console
    (see [m_head] and [m_tail]). *)
Definition head (this : DataFrame) (n : Z) : list value :=
  js_slice (data this) 0 (Some n).

Definition tail (this : DataFrame) (n : Z) : list value :=
  js_slice (data this) (- n) None.

Definition shape (this : DataFrame) : string :=
  "(" +:+ pretty (length (data this)) +:+ ", "
      +:+ pretty (length (columns this)) +:+ ")".

(** #getColumnData and get *)
Definition getColumnData (this : DataFrame) (columnName : string)
  : result (list value) :=
  if bool_decide (columnName ∈ columns this) then
    mapR (λ row, get_prop row columnName) (data this)
  else Throw ColumnNotFound.

Definition get (this : DataFrame) (columnName : string) : result (list value) :=
  getColumnData this columnName.

(** The table of the test suite. *)
Definition test_data : value :=
  VArr [ VArr [VNum 1; VStr "John"; VNum 25];
         VArr [VNum 2; VStr "Jane"; VNum 30];
         VArr [VNum 3; VStr "Sam"; VNum 28] ].

Definition person (id : Z) (name : string) (age : Z) : value :=
  VObj [("ID", VNum id); ("Name", VStr name); ("Age", VNum age)].

Definition test_df : DataFrame :=
  {| columns := ["ID"; "Name"; "Age"];
     data := [person 1 "John" 25; person 2 "Jane" 30; person 3 "Sam" 28];
     dtypes := [("ID", "number"); ("Name", "string"); ("Age", "number")] |}.

(** ** Structural mutation: renameColumns and dropColumns

    Both assign [this.columns], [this.data] and then [this.dtypes]; they
    are state transformers on the receiver, returning the outcome of the
    call and the receiver's fields after it. *)

(** [columns[oldColumn] || oldColumn] for a mapping from names to names. *)
Definition renamed (mapping : list (string * string)) (oldColumn : string) : string :=
  match prop_get oldColumn mapping with
  | Some newColumn => if String.eqb newColumn "" then oldColumn else newColumn
  | None => oldColumn
  end.

Fixpoint rename_row (mapping : list (string * string)) (cols : list string)
    (row : value) (newRow : list (string * value))
  : result (list (string * value)) :=
  match cols with
  | [] => Ok newRow
  | oldColumn :: rest =>
      v ← get_prop row oldColumn;
      rename_row mapping rest row (prop_set (renamed mapping oldColumn) v newRow)
  end.

Definition assign_fields (this : DataFrame) (newColumns : list string)
    (newData : list value) : result unit * DataFrame :=
  let this1 := {| columns := newColumns; data := newData; dtypes := dtypes this |} in
  match detectColumnTypes this1 with
  | Ok dt => (Ok (), set_dtypes this1 dt)
  | Throw e => (Throw e, this1)
  end.

Definition renameColumns (this : DataFrame) (mapping : list (string * string))
  : result unit * DataFrame :=
  let newColumns := renamed mapping <$> columns this in
  match mapR (λ row, VObj <$> rename_row mapping (columns this) row []) (data this) with
  | Ok newData => assign_fields this newColumns newData
  | Throw e => (Throw e, this)
  end.

(** A parameter documented as string|string[]. *)
Inductive names : Type :=
| OneName (name : string)
| ManyNames (l : list string).

(** [Array.isArray(columns) ? columns : [columns]] *)
Definition to_array (columns : names) : list string :=
  match columns with OneName c => [c] | ManyNames l => l end.

(** [for (const column of newColumns) newRow[column] = row[column]] *)
Fixpoint pick_row (newColumns : list string) (row : value)
    (newRow : list (string * value)) : result (list (string * value)) :=
  match newColumns with
  | [] => Ok newRow
  | column :: rest =>
      v ← get_prop row column; pick_row rest row (prop_set column v newRow)
  end.

Definition dropColumns (this : DataFrame) (cols : names) : result unit * DataFrame :=
  let columnsToDrop := to_array cols in
  let newColumns :=
    List.filter (λ column, negb (bool_decide (column ∈ columnsToDrop))) (columns this) in
  match mapR (λ row, VObj <$> pick_row newColumns row []) (data this) with
  | Ok newData => assign_fields this newColumns newData
  | Throw e => (Throw e, this)
  end.

(** ** Derivation: select, filter, sortBy, groupBy *)

Definition select (this : DataFrame) (cols : names) : result DataFrame :=
  let columnsToSelect := to_array cols in
  let newColumns :=
    List.filter (λ column, bool_decide (column ∈ columns this)) columnsToSelect in
  newData ← mapR (λ row, VObj <$> pick_row newColumns row []) (data this);
  DataFrame_new (VArr newData) (Some newColumns).

Definition filter_rows (this : DataFrame) (condition : value → bool) : result DataFrame :=
  let filteredData := List.filter condition (data this) in
  DataFrame_new (VArr filteredData) (Some (columns this)).

(** [String(v)], also the property key a value is coerced to. *)
Fixpoint ToString (v : value) : string :=
  match v with
  | VUndefined => "undefined"
  | VNull => "null"
  | VBool b => if b then "true" else "false"
  | VNum n => pretty n
  | VStr s => s
  | VArr elems =>
      String.concat ","
        ((fix items (l : list value) : list string :=
            match l with
            | [] => []
            | x :: l' =>
                match x with
                | VUndefined | VNull => ""
                | _ => ToString x
                end :: items l'
            end) elems)
  | VObj _ => "[object Object]"
  end.

(** ToPrimitive: arrays and plain objects become their string. *)
Definition ToPrimitive (v : value) : value :=
  match v with
  | VArr _ | VObj _ => VStr (ToString v)
  | _ => v
  end.

(** Numbers as the relational operators and [-] see them. *)
Inductive number : Type :=
| NaN
| Int (n : Z).

(** ToNumber on a primitive; parsing a string is outside the model. *)
Definition ToNumber (v : value) : result number :=
  match v with
  | VUndefined => Ok NaN
  | VNull => Ok (Int 0)
  | VBool b => Ok (Int (if b then 1 else 0))
  | VNum n => Ok (Int n)
  | VStr _ | VArr _ | VObj _ => Throw Unmodelled
  end.

(** [a < b] *)
Definition js_lt (a b : value) : result bool :=
  match ToPrimitive a, ToPrimitive b with
  | VStr s, VStr s' => Ok (String.ltb s s')
  | pa, pb =>
      match ToNumber pa, ToNumber pb with
      | Ok NaN, _ | _, Ok NaN => Ok false
      | Ok (Int x), Ok (Int y) => Ok (x <? y)
      | _, _ => Throw Unmodelled
      end
  end.

(** The comparator of sortBy. *)
Fixpoint compareRows (cols : list string) (ascending : bool) (row1 row2 : value)
  : result Z :=
  match cols with
  | [] => Ok 0
  | column :: rest =>
      value1 ← get_prop row1 column;
      value2 ← get_prop row2 column;
      lt ← js_lt value1 value2;
      if lt : bool then Ok (if ascending then -1 else 1)
      else
        gt ← js_lt value2 value1;
        if gt : bool then Ok (if ascending then 1 else -1)
        else compareRows rest ascending row1 row2
  end.

(** [Array.prototype.sort(cmp)].  The language requires the sort to be
    stable and, for a consistent comparator, to yield the sorted order, so
    the result does not depend on the algorithm; the model is insertion
    sort.  Undefined elements go last without being compared. *)
Fixpoint sort_insert (cmp : value → value → result Z) (x : value) (sorted : list value)
  : result (list value) :=
  match sorted with
  | [] => Ok [x]
  | y :: ys =>
      c ← cmp y x;
      if c <? 0 then r ← sort_insert cmp x ys; Ok (y :: r)
      else Ok (x :: y :: ys)
  end.

Fixpoint insertion_sort (cmp : value → value → result Z) (l : list value)
  : result (list value) :=
  match l with
  | [] => Ok []
  | x :: l' => s ← insertion_sort cmp l'; sort_insert cmp x s
  end.

Definition is_undefined (v : value) : bool :=
  match v with VUndefined => true | _ => false end.

Definition Array_sort (cmp : value → value → result Z) (l : list value)
  : result (list value) :=
  let defined := List.filter (λ v, negb (is_undefined v)) l in
  sorted ← insertion_sort cmp defined;
  Ok (sorted ++ replicate (length l - length defined)%nat VUndefined)%list.

Definition sortBy (this : DataFrame) (cols : list string) (ascending : bool)
  : result DataFrame :=
  sortData ← Array_sort (compareRows cols ascending) (data this);
  DataFrame_new (VArr sortData) (Some (columns this)).

(** [JSON.stringify] of a value inside an array or as a property value. *)
Definition dquote : string := String (ascii_of_nat 34) EmptyString.

Definition hex_digit (n : nat) : ascii :=
  nth n (list_ascii_of_string "0123456789abcdef") (ascii_of_nat 48).

Definition json_escape (c : ascii) : string :=
  let n := nat_of_ascii c in
  if (n =? 34)%nat then "\" +:+ dquote
  else if (n =? 92)%nat then "\\"
  else if (n =? 8)%nat then "\b"
  else if (n =? 12)%nat then "\f"
  else if (n =? 10)%nat then "\n"
  else if (n =? 13)%nat then "\r"
  else if (n =? 9)%nat then "\t"
  else if (n <? 32)%nat then
    "\u00" +:+ String (hex_digit (n / 16)) (String (hex_digit (n mod 16)) EmptyString)
  else String c EmptyString.

Fixpoint json_escape_string (s : string) : string :=
  match s with
  | EmptyString => EmptyString
  | String c s' => json_escape c +:+ json_escape_string s'
  end.

Definition json_quote (s : string) : string :=
  dquote +:+ json_escape_string s +:+ dquote.

Fixpoint json (v : value) : string :=
  match v with
  | VUndefined | VNull => "null"
  | VBool b => if b then "true" else "false"
  | VNum n => pretty n
  | VStr s => json_quote s
  | VArr elems =>
      "[" +:+ String.concat ","
        ((fix items (l : list value) : list string :=
            match l with
            | [] => []
            | x :: l' => json x :: items l'
            end) elems) +:+ "]"
  | VObj props =>
      "{" +:+ String.concat ","
        ((fix members (l : list (string * value)) : list string :=
            match l with
            | [] => []
            | (k, x) :: l' =>
                match x with
                | VUndefined => members l'
                | _ => (json_quote k +:+ ":" +:+ json x) :: members l'
                end
            end) props) +:+ "}"
  end.

(** A [Map] from strings to arrays, in insertion order. *)
Definition Map_has {A : Type} (key : string) (m : list (string * A)) : bool :=
  match prop_get key m with Some _ => true | None => false end.

(** [groups.get(key).push(row)] *)
Fixpoint Map_push (key : string) (row : value) (m : list (string * list value))
  : list (string * list value) :=
  match m with
  | [] => []
  | (k, bucket) :: m' =>
      if String.eqb key k then (k, (bucket ++ [row])%list) :: m'
      else (k, bucket) :: Map_push key row m'
  end.

(** The key of a row: [JSON.stringify(columns.map((column) => row[column]))]. *)
Definition group_key (cols : list string) (row : value) : result string :=
  vals ← mapR (get_prop row) cols; Ok (json (VArr vals)).

Fixpoint group_loop (cols : list string) (rows : list value)
    (groups : list (string * list value)) : result (list (string * list value)) :=
  match rows with
  | [] => Ok groups
  | row :: rest =>
      key ← group_key cols row;
      let groups1 := if Map_has key groups then groups else prop_set key [] groups in
      group_loop cols rest (Map_push key row groups1)
  end.

Definition groupBy (this : DataFrame) (cols : list string) : result DataFrame :=
  groups ← group_loop cols (data this) [];
  let groupData := VArr <$> groups.*2 in
  DataFrame_new (VArr groupData) (Some (columns this)).

(** ** Aggregation and statistics *)

(** A value of the [aggregations] object: a function, or anything else. *)
Inductive aggregation : Type :=
| Reducer (f : list value → value)
| NotAFunction.

Fixpoint aggregate_loop (this : DataFrame) (entries : list (string * aggregation))
    (aggregatedData : list (string * value)) : result (list (string * value)) :=
  match entries with
  | [] => Ok aggregatedData
  | (columnName, aggregationFn) :: rest =>
      match aggregationFn with
      | Reducer f =>
          columnData ← getColumn this columnName;
          aggregate_loop this rest (prop_set columnName (f columnData) aggregatedData)
      | NotAFunction => Throw (InvalidAggregationFunction columnName)
      end
  end.

Definition aggregate (this : DataFrame) (aggregations : list (string * aggregation))
  : result (list (string * value)) :=
  aggregate_loop this aggregations [].

(** Doubles. *)
Definition float_of_Z (n : Z) : float :=
  if n <? 0 then PrimFloat.opp (PrimFloat.of_uint63 (Uint63.of_Z (- n)))
  else PrimFloat.of_uint63 (Uint63.of_Z n).

Definition float_of_number (x : number) : float :=
  match x with NaN => PrimFloat.nan | Int n => float_of_Z n end.

(** The numeric operand a value contributes to [+], [-]; a string or an
    object operand would concatenate or be parsed. *)
Definition operand (v : value) : result float := float_of_number <$> ToNumber v.

(** [array.reduce(f, init)] with a callback that may throw. *)
Fixpoint reduceR {A B : Type} (f : B → A → result B) (l : list A) (acc : B) : result B :=
  match l with
  | [] => Ok acc
  | x :: l' => acc' ← f acc x; reduceR f l' acc'
  end.

(** [(acc, val) => acc + val] *)
Definition add_value (acc : float) (val : value) : result float :=
  x ← operand val; Ok (PrimFloat.add acc x).

Definition column_mean (columnData : list value) : result float :=
  sum ← reduceR add_value columnData (float_of_Z 0);
  Ok (PrimFloat.div sum (float_of_Z (Z.of_nat (length columnData)))).

Definition mean (this : DataFrame) (columnName : string) : result float :=
  columnData ← getColumn this columnName; column_mean columnData.

(** What median returns: an element of the column, or a computed double. *)
Inductive scalar : Type :=
| Element (v : value)
| Double (x : float).

(** [(a, b) => a - b]; a NaN difference counts as zero in the sort. *)
Definition subtract (a b : value) : result Z :=
  x ← ToNumber a; y ← ToNumber b;
  Ok (match x, y with Int n, Int m => n - m | _, _ => 0 end).

Definition column_median (columnData : list value) : result scalar :=
  sortedData ← Array_sort subtract columnData;
  let len := Z.of_nat (length sortedData) in
  let mid := len / 2 in
  if len mod 2 =? 0 then
    x ← operand (array_at sortedData (mid - 1));
    y ← operand (array_at sortedData mid);
    Ok (Double (PrimFloat.div (PrimFloat.add x y) (float_of_Z 2)))
  else Ok (Element (array_at sortedData mid)).

Definition median (this : DataFrame) (columnName : string) : result scalar :=
  columnData ← getColumn this columnName; column_median columnData.

(** The own property names of Object.prototype, which every object
    literal inherits. *)
Definition Object_prototype_names : list string :=
  [ "constructor"; "__defineGetter__"; "__defineSetter__"; "hasOwnProperty";
    "__lookupGetter__"; "__lookupSetter__"; "isPrototypeOf";
    "propertyIsEnumerable"; "toString"; "valueOf"; "__proto__"; "toLocaleString" ].

(** The loop of mode.  [frequencyMap[value]] coerces the value to a
    property key.  For a key inherited from Object.prototype the entry read
    is a function or an object, [entry + 1] is a string, and neither
    [>] nor [===] against [maxFrequency] holds. *)
Fixpoint mode_loop (columnData : list value) (frequencyMap : gmap string nat)
    (maxFrequency : nat) (modes : list value) : list value :=
  match columnData with
  | [] => modes
  | value :: rest =>
      let key := ToString value in
      if bool_decide (key ∈ Object_prototype_names) then
        mode_loop rest frequencyMap maxFrequency modes
      else
        let frequency :=
          match frequencyMap !! key with Some n => (n + 1)%nat | None => 1%nat end in
        let frequencyMap' := <[key := frequency]> frequencyMap in
        if (maxFrequency <? frequency)%nat then
          mode_loop rest frequencyMap' frequency [value]
        else if (frequency =? maxFrequency)%nat then
          mode_loop rest frequencyMap' maxFrequency (modes ++ [value])%list
        else mode_loop rest frequencyMap' maxFrequency modes
  end.

Definition column_mode (columnData : list value) : list value :=
  mode_loop columnData ∅ 0%nat [].

Definition mode (this : DataFrame) (columnName : string) : result (list value) :=
  columnData ← getColumn this columnName; Ok (column_mode columnData).

(** [Math.pow(x, 2)] is taken to be the correctly rounded square. *)
Definition add_squared_diff (mean : float) (acc : float) (val : value) : result float :=
  x ← operand val;
  let d := PrimFloat.sub x mean in
  Ok (PrimFloat.add acc (PrimFloat.mul d d)).

Definition column_std (columnData : list value) (mean : float) : result float :=
  sumSquaredDiff ← reduceR (add_squared_diff mean) columnData (float_of_Z 0);
  let variance :=
    PrimFloat.div sumSquaredDiff (float_of_Z (Z.of_nat (length columnData))) in
  Ok (PrimFloat.sqrt variance).

Definition std (this : DataFrame) (columnName : string) : result float :=
  columnData ← getColumn this columnName;
  mean ← mean this columnName;
  column_std columnData mean.

(** ** Instances in the heap *)

Record world : Type := mkWorld {
  heap : gmap nat DataFrame;
  console : list (list value)
}.

Definition empty_world : world := {| heap := ∅; console := [] |}.

Definition set_heap (w : world) (h : gmap nat DataFrame) : world :=
  {| heap := h; console := console w |}.

(** [console.log(rows)] *)
Definition console_log (w : world) (rows : list value) : world :=
  {| heap := heap w; console := (console w ++ [rows])%list |}.

(** A new instance gets a location no instance has. *)
Definition allocate (r : result DataFrame) (w : world) : result nat * world :=
  match r with
  | Ok df =>
      let l := fresh (dom (heap w)) in (Ok l, set_heap w (<[l := df]> (heap w)))
  | Throw e => (Throw e, w)
  end.

(** A method called on the instance at [l]. *)
Definition with_this {A : Type} (l : nat) (w : world)
    (body : DataFrame → result A * world) : result A * world :=
  match heap w !! l with
  | Some this => body this
  | None => (Throw TypeError, w)
  end.

Definition update_this (l : nat) (w : world) (r : result unit * DataFrame)
  : result unit * world :=
  (r.1, set_heap w (<[l := r.2]> (heap w))).

Definition m_new (data : value) (cols : option (list string)) (w : world)
  : result nat * world :=
  allocate (DataFrame_new data cols) w.

Definition m_renameColumns (l : nat) (mapping : list (string * string)) (w : world)
  : result unit * world :=
  with_this l w (λ this, update_this l w (renameColumns this mapping)).

Definition m_dropColumns (l : nat) (cols : names) (w : world) : result unit * world :=
  with_this l w (λ this, update_this l w (dropColumns this cols)).

Definition m_select (l : nat) (cols : names) (w : world) : result nat * world :=
  with_this l w (λ this, allocate (select this cols) w).

Definition m_filter (l : nat) (condition : value → bool) (w : world)
  : result nat * world :=
  with_this l w (λ this, allocate (filter_rows this condition) w).

Definition m_sortBy (l : nat) (cols : list string) (ascending : bool) (w : world)
  : result nat * world :=
  with_this l w (λ this, allocate (sortBy this cols ascending) w).

Definition m_groupBy (l : nat) (cols : list string) (w : world) : result nat * world :=
  with_this l w (λ this, allocate (groupBy this cols) w).

Definition m_head (l : nat) (n : Z) (w : world) : result (list value) * world :=
  with_this l w (λ this, let headData := head this n in
                         (Ok headData, console_log w headData)).

Definition m_tail (l : nat) (n : Z) (w : world) : result (list value) * world :=
  with_this l w (λ this, let tailData := tail this n in
                         (Ok tailData, console_log w tailData)).

(** The calls by which a program constructs instances, writes them or
    writes the console, and the worlds they lead to; the other methods
    only read. *)
Inductive call : Type :=
| CallNew (data : value) (cols : option (list string))
| CallRenameColumns (l : nat) (mapping : list (string * string))
| CallDropColumns (l : nat) (cols : names)
| CallSelect (l : nat) (cols : names)
| CallFilter (l : nat) (condition : value → bool)
| CallSortBy (l : nat) (cols : list string) (ascending : bool)
| CallGroupBy (l : nat) (cols : list string)
| CallHead (l : nat) (n : Z)
| CallTail (l : nat) (n : Z).

Definition exec (c : call) (w : world) : world :=
  match c with
  | CallNew d cols => (m_new d cols w).2
  | CallRenameColumns l mapping => (m_renameColumns l mapping w).2
  | CallDropColumns l cols => (m_dropColumns l cols w).2
  | CallSelect l cols => (m_select l cols w).2
  | CallFilter l condition => (m_filter l condition w).2
  | CallSortBy l cols ascending => (m_sortBy l cols ascending w).2
  | CallGroupBy l cols => (m_groupBy l cols w).2
  | CallHead l n => (m_head l n w).2
  | CallTail l n => (m_tail l n w).2
  end.

Inductive reachable : world → Prop :=
| reachable_empty : reachable empty_world
| reachable_exec (c : call) (w : world) : reachable w → reachable (exec c w).

Definition age_above (n : Z) (row : value) : bool :=
  match get_prop row "Age" with Ok (VNum a) => n <? a | _ => false end.

Definition max_reducer (values : list value) : value :=
  VNum (fold_right (λ v m, match v with VNum n => Z.max n m | _ => m end) 0 values).

(** * Definitions for the statements *)

(** ** Property access *)

(** Rows that are records: the field read by [row[name]]. *)
Definition is_record (v : value) : bool :=
  match v with VObj _ => true | _ => false end.

Definition field (name : string) (row : value) : value :=
  match row with
  | VObj props => default VUndefined (prop_get name props)
  | _ => VUndefined
  end.

(** ** Construction *)

(** The dtype the inspector assigns to a column with the given values. *)
Definition column_dtype (vals : list value) : string :=
  match Set_values (typeof <$> vals) with [t] => t | _ => "mixed" end.

(** The two input shapes of the specification. *)
Definition array_of_arrays (d : value) : bool :=
  match d with VArr rows => forallb isArray rows | _ => false end.

Definition array_of_records (d : value) : bool :=
  match d with VArr rows => forallb is_record rows | _ => false end.

Definition numbers_input : value := VArr [VNum 1; VNum 2; VNum 3].

(** ** Type inspection *)

(** The dtypes stored in an instance are those the inspector computes from
    its current columns and rows. *)
Definition dtypes_current (this : DataFrame) : Prop :=
  detectColumnTypes this = Ok (dtypes this).

(** ** Instances in the heap *)

Definition heap_invariant (P : DataFrame → Prop) (w : world) : Prop :=
  ∀ l this, heap w !! l = Some this → P this.

(** The test table, constructed in the empty world, then renamed; and the
    same table filtered by a predicate no row satisfies. *)
Definition world_constructed : world :=
  exec (CallNew test_data (Some ["ID"; "Name"; "Age"])) empty_world.

Definition world_renamed : world :=
  exec (CallRenameColumns 0 [("ID", "IDNumber"); ("Name", "FullName")]) world_constructed.


Definition renamed_df : DataFrame :=
  (renameColumns test_df [("ID", "IDNumber"); ("Name", "FullName")]).2.


(** ** Statistics on a column that does not exist *)

(** The invariant of the data model: every row is a record whose keys are
    column names. *)
Definition keys_within (cols : list string) (row : value) : bool :=
  match row with
  | VObj props => forallb (λ k, bool_decide (k ∈ cols)) props.*1
  | _ => false
  end.

Definition rows_match_columns (this : DataFrame) : bool :=
  forallb (keys_within (columns this)) (data this).


(** ** Sorting *)

(** Insertion sort with a comparator that does not throw. *)
Fixpoint insert_pure (c : value → value → Z) (x : value) (sorted : list value)
  : list value :=
  match sorted with
  | [] => [x]
  | y :: ys => if c y x <? 0 then y :: insert_pure c x ys else x :: y :: ys
  end.

Fixpoint sort_pure (c : value → value → Z) (l : list value) : list value :=
  match l with
  | [] => []
  | x :: l' => insert_pure c x (sort_pure c l')
  end.

(** ** The natural order of the values of one primitive type *)

Definition natural_lt (v w : value) : bool :=
  match v, w with
  | VNum a, VNum b => a <? b
  | VStr a, VStr b => String.ltb a b
  | VBool a, VBool b => negb a && b
  | _, _ => false
  end.

(** The comparator of sortBy on rows whose key columns are typed. *)
Fixpoint compare_keys (cols : list string) (ascending : bool) (row1 row2 : value) : Z :=
  match cols with
  | [] => 0
  | column :: rest =>
      if natural_lt (field column row1) (field column row2)
      then (if ascending then -1 else 1)
      else if natural_lt (field column row2) (field column row1)
           then (if ascending then 1 else -1)
           else compare_keys rest ascending row1 row2
  end.

(** Every value of the column has one type, and it is not [object]. *)
Definition single_type (rows : list value) (column : string) : bool :=
  match rows with
  | [] => true
  | row :: _ =>
      negb (String.eqb (typeof (field column row)) "object")
      && forallb (λ r, String.eqb (typeof (field column r)) (typeof (field column row)))
                 rows
  end.

Definition sortable (cols : list string) (rows : list value) : bool :=
  forallb (single_type rows) cols.

Definition typed_rows (cols : list string) (rows : list value) : Prop :=
  ∀ column a b, column ∈ cols → a ∈ rows → b ∈ rows →
    typeof (field column a) = typeof (field column b)
    ∧ typeof (field column a) ≠ "object".



(** ** Grouping *)

Definition key_values (cols : list string) (row : value) : list value :=
  (λ c, field c row) <$> cols.

(** The Map key of a record. *)
Definition row_key (cols : list string) (row : value) : string :=
  json (VArr (key_values cols row)).

Arguments row_key : simpl never.

(** One iteration of the loop of groupBy on a record. *)
Definition group_step (cols : list string) (groups : list (string * list value))
    (row : value) : list (string * list value) :=
  let key := row_key cols row in
  Map_push key row (if Map_has key groups then groups else prop_set key [] groups).

(** The rows with a given key, the keys in order of first occurrence, and
    the buckets in that order. *)
Definition bucket (cols : list string) (rows : list value) (key : string) : list value :=
  List.filter (λ row, String.eqb (row_key cols row) key) rows.

Definition group_keys (cols : list string) (rows : list value) : list string :=
  Set_values (row_key cols <$> rows).

Definition group_buckets (cols : list string) (rows : list value) : list (list value) :=
  bucket cols rows <$> group_keys cols rows.

(** What the constructor makes of a bucket taken as a row of cells. *)
Fixpoint fill_array (cols : list string) (index : nat) (elems : list value)
    (obj : list (string * value)) : list (string * value) :=
  match cols with
  | [] => obj
  | column :: rest =>
      fill_array rest (S index) elems
        (prop_set column (default VUndefined (elems !! index)) obj)
  end.

Definition grouped_record (cols : list string) (b : list value) : value :=
  VObj (fill_array cols 0 b []).


(** ** Derivation leaves the receiver alone *)


(** ** Mode *)

Definition occurrences (l : list value) (v : value) : nat := count_occ value_eq_dec l v.

(** The greatest number of occurrences of a value of the column. *)
Definition max_count (l : list value) : nat :=
  foldr (λ v m, Nat.max (occurrences l v) m) 0%nat l.

(** The modes as the specification describes them: each value whose number
    of occurrences is the greatest, once, in the order of the positions at
    which the running count of the value reaches that number. *)
Definition mode_as_specified (l ms : list value) : Prop :=
  NoDup ms
  ∧ (∀ v, v ∈ ms ↔ v ∈ l ∧ occurrences l v = max_count l)
  ∧ ∃ positions : list nat,
      StronglySorted lt positions
      ∧ Forall2 (λ i v, l !! i = Some v
                        ∧ occurrences (take (S i) l) v = max_count l)
                positions ms.

(** Distinct values of the column have distinct property keys, and no key
    is a name inherited from Object.prototype. *)
Definition distinct_keys (l : list value) : bool :=
  forallb (λ v,
             negb (bool_decide (ToString v ∈ Object_prototype_names))
             && forallb (λ w, implb (String.eqb (ToString v) (ToString w))
                                    (bool_decide (v = w))) l) l.

(** The state of the loop of mode on the column [l] after the rows of the
    prefix [p]. *)
Record mode_invariant (l p : list value) (frequencyMap : gmap string nat)
    (maxFrequency : nat) (modes : list value) : Prop := {
  inv_frequency : ∀ v, v ∈ l →
    frequencyMap !! ToString v
    = if (occurrences p v =? 0)%nat then None else Some (occurrences p v);
  inv_bound : ∀ v, (occurrences p v ≤ maxFrequency)%nat;
  inv_attained :
    maxFrequency = 0%nat ∧ p = []
    ∨ ∃ v, occurrences p v = maxFrequency ∧ (0 < maxFrequency)%nat;
  inv_modes : ∀ v, v ∈ modes ↔ (0 < maxFrequency)%nat ∧ occurrences p v = maxFrequency;
  inv_NoDup : NoDup modes;
  inv_positions : ∃ positions : list nat,
    StronglySorted lt positions
    ∧ Forall (λ i, (i < length p)%nat) positions
    ∧ Forall2 (λ i v, p !! i = Some v
                      ∧ occurrences (take (S i) p) v = maxFrequency)
              positions modes
}.

Definition mixed_df : DataFrame :=
  {| columns := ["a"];
     data := [VObj [("a", VNum 1)]; VObj [("a", VStr "1")]];
     dtypes := [("a", "mixed")] |}.

(** ** The Map keys of primitive key values

    JSON.stringify is injective on lists of numbers, strings and booleans:
    for such key values, rows share a bucket exactly when the values are
    equal. *)



Fixpoint all_chars (P : ascii → bool) (s : string) : bool :=
  match s with
  | EmptyString => true
  | String c s' => P c && all_chars P s'
  end.





(** ** What groupBy returns *)





(** * Further definitions

    The rest of the class, and what the further statements need. *)

(** toCSV: the rows handed to the writer, in the order written,
    [this.data.map((row) => this.columns.map((col) => row[col]))]; the
    writer is created with the headers [this.columns].  The writer and the
    file are outside the model. *)
Definition toCSV_rows (this : DataFrame) : result (list (list value)) :=
  mapR (λ row, mapR (λ col, get_prop row col) (columns this)) (data this).

(** A sequence of assignments [obj[key] = value] to an object literal. *)
Definition assign (kvs : list (string * value)) (obj : list (string * value))
  : list (string * value) :=
  fold_left (λ o kv, prop_set kv.1 kv.2 o) kvs obj.

(** The cell of a row of cells under the j-th column. *)
Definition cell (j : nat) (cells : list value) : value :=
  default VUndefined (cells !! j).

(** The column names the constructor gives to rows of cells. *)
Definition chosen_columns (cols : option (list string)) (first : list value)
  : list string :=
  match cols with
  | Some cs => if (length cs =? length first)%nat then cs
               else auto_columns (length first)
  | None => auto_columns (length first)
  end.

(** The row that the loops of dropColumns and select build from [row]. *)
Definition picked_row (cols : list string) (row : value) : value :=
  VObj (assign ((λ c, (c, field c row)) <$> cols) []).

(** The row that the loop of renameColumns builds from [row]. *)
Definition renamed_row (mapping : list (string * string)) (cols : list string)
    (row : value) : value :=
  VObj (assign ((λ c, (renamed mapping c, field c row)) <$> cols) []).

(** A row that has exactly the given keys, in their order. *)
Definition has_columns (cols : list string) (row : value) : bool :=
  match row with
  | VObj props => bool_decide (props.*1 = cols)
  | _ => false
  end.

(** A property key made of decimal digits only.  An object lists its keys
    that are array indices first, in numeric order, and the others in
    order of insertion: the list of properties in insertion order is the
    object when no key is of this kind. *)
Definition index_like (k : string) : bool :=
  all_chars (λ c, (48 <=? nat_of_ascii c)%nat && (nat_of_ascii c <=? 57)%nat) k.

(** A name that is neither made of digits only nor the name of a member
    every object inherits (reading such a name from a record that lacks it
    finds the inherited member, and assigning to __proto__ adds no
    property). *)
Definition plain_name (k : string) : bool :=
  negb (index_like k) && negb (bool_decide (k ∈ Object_prototype_names)).

(** Distinct plain names. *)
Definition plain_names (l : list string) : bool :=
  bool_decide (NoDup l) && forallb plain_name l.

(** A table with plain column names all of whose rows have exactly the
    columns of the table. *)
Definition well_formed (this : DataFrame) : bool :=
  plain_names (columns this) && forallb (has_columns (columns this)) (data this).

(** What an entry of the aggregations object contributes to the result. *)
Definition is_reducer (a : aggregation) : bool :=
  match a with Reducer _ => true | NotAFunction => false end.

Definition reduce_with (a : aggregation) (columnData : list value) : value :=
  match a with Reducer f => f columnData | NotAFunction => VUndefined end.


(** A value whose property key is the name of a member every object
    inherits. *)
Definition inherited_key (v : value) : bool :=
  bool_decide (ToString v ∈ Object_prototype_names).



(** * The test suite's expectations, on the model *)

Example test_df_constructed :
  DataFrame_new test_data (Some ["ID"; "Name"; "Age"]) = Ok test_df.
Proof. vm_compute. reflexivity. Qed.

Example test_getRow_1 : getRow test_df 1 = Ok (person 2 "Jane" 30).
Proof. reflexivity. Qed.

Example test_getRow_4 : getRow test_df 4 = Throw IndexOutOfRange.
Proof. reflexivity. Qed.

Example test_head : head test_df 5 = data test_df.
Proof. reflexivity. Qed.

Example test_tail : tail test_df 2 = [person 2 "Jane" 30; person 3 "Sam" 28].
Proof. reflexivity. Qed.

Example test_shape : shape test_df = "(3, 3)".
Proof. vm_compute. reflexivity. Qed.

Example test_get_Age : get test_df "Age" = Ok [VNum 25; VNum 30; VNum 28].
Proof. vm_compute. reflexivity. Qed.

Example test_get_Salary : get test_df "Salary" = Throw ColumnNotFound.
Proof. vm_compute. reflexivity. Qed.

Example test_rename :
  renameColumns test_df [("ID", "IDNumber"); ("Name", "FullName")]
  = (Ok (),
     {| columns := ["IDNumber"; "FullName"; "Age"];
        data := [ VObj [("IDNumber", VNum 1); ("FullName", VStr "John"); ("Age", VNum 25)];
                  VObj [("IDNumber", VNum 2); ("FullName", VStr "Jane"); ("Age", VNum 30)];
                  VObj [("IDNumber", VNum 3); ("FullName", VStr "Sam"); ("Age", VNum 28)] ];
        dtypes := [("IDNumber", "number"); ("FullName", "string"); ("Age", "number")] |}).
Proof. vm_compute. reflexivity. Qed.

Example test_drop :
  (dropColumns test_df (ManyNames ["ID"; "Age"])).2
  = {| columns := ["Name"];
       data := [VObj [("Name", VStr "John")]; VObj [("Name", VStr "Jane")];
                VObj [("Name", VStr "Sam")]];
       dtypes := [("Name", "string")] |}.
Proof. vm_compute. reflexivity. Qed.

Example test_drop_single :
  columns (dropColumns test_df (OneName "ID")).2 = ["Name"; "Age"].
Proof. vm_compute. reflexivity. Qed.

Example test_select_single :
  select test_df (OneName "Name")
  = Ok {| columns := ["Name"];
          data := [VObj [("Name", VStr "John")]; VObj [("Name", VStr "Jane")];
                   VObj [("Name", VStr "Sam")]];
          dtypes := [("Name", "string")] |}.
Proof. vm_compute. reflexivity. Qed.

Example test_select_missing :
  select test_df (ManyNames ["ID"; "Salary"])
  = Ok {| columns := ["ID"];
          data := [VObj [("ID", VNum 1)]; VObj [("ID", VNum 2)]; VObj [("ID", VNum 3)]];
          dtypes := [("ID", "number")] |}.
Proof. vm_compute. reflexivity. Qed.

Example test_filter :
  data <$> filter_rows test_df (age_above 25)
  = Ok [person 2 "Jane" 30; person 3 "Sam" 28].
Proof. vm_compute. reflexivity. Qed.

Example test_filter_none :
  filter_rows test_df (age_above 30)
  = Ok {| columns := ["ID"; "Name"; "Age"]; data := [];
          dtypes := [("ID", "mixed"); ("Name", "mixed"); ("Age", "mixed")] |}.
Proof. vm_compute. reflexivity. Qed.

Example test_sort_ascending :
  data <$> sortBy test_df ["Age"] true
  = Ok [person 1 "John" 25; person 3 "Sam" 28; person 2 "Jane" 30].
Proof. vm_compute. reflexivity. Qed.

Example test_sort_descending :
  data <$> sortBy test_df ["Age"] false
  = Ok [person 2 "Jane" 30; person 3 "Sam" 28; person 1 "John" 25].
Proof. vm_compute. reflexivity. Qed.

Example test_groupBy :
  groupBy test_df ["Age"]
  = Ok {| columns := ["column1"];
          data := [ VObj [("column1", person 1 "John" 25)];
                    VObj [("column1", person 2 "Jane" 30)];
                    VObj [("column1", person 3 "Sam" 28)] ];
          dtypes := [("column1", "object")] |}.
Proof. vm_compute. reflexivity. Qed.

Example test_aggregate :
  aggregate test_df [("Age", Reducer max_reducer)] = Ok [("Age", VNum 30)].
Proof. vm_compute. reflexivity. Qed.

Example test_aggregate_invalid :
  aggregate test_df [("ID", NotAFunction)] = Throw (InvalidAggregationFunction "ID").
Proof. vm_compute. reflexivity. Qed.

Example test_mean : mean test_df "Age" = Ok 27.666666666666668%float.
Proof. vm_compute. reflexivity. Qed.

Example test_median : median test_df "Age" = Ok (Element (VNum 28)).
Proof. vm_compute. reflexivity. Qed.

Example test_mode : mode test_df "Age" = Ok [VNum 25; VNum 30; VNum 28].
Proof. vm_compute. reflexivity. Qed.

Example test_std : std test_df "Age" = Ok 2.0548046676563256%float.
Proof. vm_compute. reflexivity. Qed.

(** * Properties *)

(** ** The error monad *)

Section ResultMonad.
Context {A B : Type}.
Implicit Types (m : result A) (f : A → result B).

Lemma bind_Ok m f b :
  m ≫= f = Ok b ↔ ∃ a, m = Ok a ∧ f a = Ok b.
Proof.
  destruct m as [a|e]; simpl; split.
  - intros H. exists a. auto.
  - intros (a' & [= <-] & H). exact H.
  - discriminate.
  - intros (a' & [=] & _).
Qed.

Lemma bind_Throw m f e :
  m ≫= f = Throw e ↔ m = Throw e ∨ ∃ a, m = Ok a ∧ f a = Throw e.
Proof.
  destruct m as [a|e']; simpl; split.
  - intros H. right. exists a. auto.
  - intros [[=]|(a' & [= <-] & H)]. exact H.
  - intros [= ->]. left. reflexivity.
  - intros [[= ->]|(a' & [=] & _)]. reflexivity.
Qed.

Lemma mapR_Throw (g : A → result B) (l : list A) e :
  mapR g l = Throw e → ∃ x, x ∈ l ∧ g x = Throw e.
Proof.
  induction l as [|x l IH]; simpl; [discriminate|].
  destruct (g x) as [y|e'] eqn:Hx; simpl.
  - destruct (mapR g l) as [ys|e'']; simpl; [discriminate|].
    intros [= ->]. destruct IH as (x' & Hin & Hx'); [reflexivity|].
    exists x'. split; [right; exact Hin | exact Hx'].
  - intros [= ->]. exists x. split; [left | exact Hx].
Qed.

Lemma mapR_pure (g : A → result B) (h : A → B) (l : list A) :
  (∀ x, x ∈ l → g x = Ok (h x)) → mapR g l = Ok (h <$> l).
Proof.
  induction l as [|x l IH]; intros H; simpl; [reflexivity|].
  rewrite (H x) by left. simpl.
  rewrite IH; [reflexivity|]. intros y Hy. apply H. right. exact Hy.
Qed.

End ResultMonad.

(** ** Property access *)

Section Properties.
Context {A : Type}.
Implicit Types (o : list (string * A)) (k : string) (v : A).

Lemma prop_get_set_eq k v o : prop_get k (prop_set k v o) = Some v.
Proof.
  induction o as [|[k' v'] o IH]; simpl.
  - rewrite String.eqb_refl. reflexivity.
  - destruct (String.eqb k k') eqn:E; simpl; rewrite E; [reflexivity | exact IH].
Qed.

Lemma prop_get_set_ne k k' v o : k ≠ k' → prop_get k (prop_set k' v o) = prop_get k o.
Proof.
  intros Hne. induction o as [|[k'' v'] o IH]; simpl.
  - destruct (String.eqb_spec k k'); [contradiction | reflexivity].
  - destruct (String.eqb_spec k' k'') as [->|Hk]; simpl.
    + destruct (String.eqb_spec k k''); [contradiction | reflexivity].
    + destruct (String.eqb_spec k k''); [reflexivity | exact IH].
Qed.

Lemma prop_get_None k o : prop_get k o = None ↔ k ∉ o.*1.
Proof.
  induction o as [|[k' v'] o IH]; simpl.
  - split; [intros _; apply not_elem_of_nil | reflexivity].
  - rewrite not_elem_of_cons.
    destruct (String.eqb_spec k k') as [->|Hk].
    + split; [discriminate | intros [H _]; contradiction].
    + rewrite IH. tauto.
Qed.
End Properties.

Lemma get_prop_record row name : is_record row = true → get_prop row name = Ok (field name row).
Proof. destruct row; simpl; try discriminate. reflexivity. Qed.

Lemma get_prop_error v k e : get_prop v k = Throw e → e = TypeError.
Proof.
  destruct v; simpl; try discriminate; try (intros [= <-]; reflexivity).
  - destruct (String.eqb k "length"); discriminate.
  - destruct (String.eqb k "length"); discriminate.
Qed.

Lemma getColumn_records this name :
  forallb is_record (data this) = true →
  getColumn this name = Ok (field name <$> data this).
Proof.
  intros H. apply mapR_pure. intros row Hrow. apply get_prop_record.
  rewrite forallb_forall in H. apply H. apply list_elem_of_In. exact Hrow.
Qed.

(** ** Row access: getRow, head, tail *)

Lemma getRow_spec this index :
  (getRow this index = Throw IndexOutOfRange ↔ index > Z.of_nat (length (data this)))
  ∧ (0 ≤ index < Z.of_nat (length (data this)) →
     ∃ row, data this !! Z.to_nat index = Some row ∧ getRow this index = Ok row).
Proof.
  unfold getRow, array_at. split.
  - destruct (Z.gtb_spec index (Z.of_nat (length (data this)))); split;
      try reflexivity; try discriminate; lia.
  - intros [H0 H1].
    destruct (Z.gtb_spec index (Z.of_nat (length (data this)))); [lia|].
    destruct (Z.ltb_spec index 0); [lia|].
    destruct (lookup_lt_is_Some_2 (data this) (Z.to_nat index)) as [row Hrow]; [lia|].
    exists row. rewrite Hrow. auto.
Qed.

(** C1 (the code departs from the claim): at index = rowCount, which is
    outside [0, rowCount), and at a negative index, getRow does not fail
    with IndexOutOfRange; it returns undefined.  The guard of getRow is
    [index > this.data.length]. *)
Theorem getRow_outside_range_returns_undefined :
  ∀ this : DataFrame,
    getRow this (Z.of_nat (length (data this))) = Ok VUndefined
    ∧ getRow this (-1) = Ok VUndefined.
Proof.
  intros this. unfold getRow, array_at. split.
  - rewrite Z.gtb_ltb, Z.ltb_irrefl.
    destruct (Z.ltb_spec (Z.of_nat (length (data this))) 0); [lia|].
    rewrite Nat2Z.id, lookup_ge_None_2; [reflexivity | lia].
  - destruct (Z.gtb_spec (-1) (Z.of_nat (length (data this)))); [lia | reflexivity].
Qed.

Lemma head_spec this n :
  0 ≤ n → head this n = take (Z.to_nat (Z.min n (Z.of_nat (length (data this))))) (data this).
Proof.
  intros Hn. unfold head, js_slice, slice_bound.
  destruct (Z.ltb_spec n 0); [lia|].
  change (0 <? 0) with false. cbv iota.
  set (len := length (data this)).
  replace (Z.to_nat (Z.min 0 (Z.of_nat len))) with 0%nat by lia.
  rewrite drop_0, Nat.sub_0_r. reflexivity.
Qed.

Lemma tail_spec this n :
  0 < n →
  tail this n
  = drop (length (data this) - Z.to_nat (Z.min n (Z.of_nat (length (data this)))))
         (data this).
Proof.
  intros Hn. unfold tail, js_slice, slice_bound.
  destruct (Z.ltb_spec (- n) 0); [|lia].
  set (len := length (data this)).
  replace (Z.to_nat (Z.max (Z.of_nat len + - n) 0))
    with (len - Z.to_nat (Z.min n (Z.of_nat len)))%nat by lia.
  apply take_ge. rewrite length_drop. lia.
Qed.

(** C4 (the code departs from the claim): tail(0) returns every row, not
    the last min(0, rowCount) = 0 rows, because [slice(-0)] is [slice(0)]. *)
Theorem tail_zero_returns_all_rows :
  ∀ this : DataFrame, tail this 0 = data this.
Proof.
  intros this. unfold tail, js_slice, slice_bound.
  change (- 0 <? 0) with false. cbv iota.
  set (len := length (data this)).
  replace (Z.to_nat (Z.min (- 0) (Z.of_nat len))) with 0%nat by lia.
  rewrite drop_0, Nat.sub_0_r. apply take_ge. lia.
Qed.

Example tail_zero_test_df : tail test_df 0 = data test_df ∧ data test_df ≠ [].
Proof. split; [reflexivity | discriminate]. Qed.

(** ** Construction *)

Lemma get_index_error v i e : get_index v i = Throw e → e = TypeError.
Proof.
  unfold get_index. destruct v; first [ apply get_prop_error | discriminate ].
Qed.

Lemma getColumn_error this name e : getColumn this name = Throw e → e = TypeError.
Proof.
  intros H. apply mapR_Throw in H as (row & _ & H). eapply get_prop_error, H.
Qed.

Lemma detectColumnType_error this name e :
  detectColumnType this name = Throw e → e = TypeError.
Proof.
  unfold detectColumnType. intros H. apply bind_Throw in H as [H|(vals & _ & H)].
  - eapply getColumn_error, H.
  - discriminate.
Qed.

Lemma detectColumnTypes_loop_error this names acc e :
  detectColumnTypes_loop this names acc = Throw e → e = TypeError.
Proof.
  revert acc. induction names as [|c names IH]; intros acc; simpl; [discriminate|].
  intros H. apply bind_Throw in H as [H|(t & _ & H)].
  - eapply detectColumnType_error, H.
  - eapply IH, H.
Qed.

Lemma finish_construction_error cols rows e :
  finish_construction cols rows = Throw e → e = TypeError.
Proof.
  unfold finish_construction. intros H. apply bind_Throw in H as [H|(dt & _ & H)].
  - eapply detectColumnTypes_loop_error, H.
  - discriminate.
Qed.

Lemma fill_record_error cols i row obj e :
  fill_record cols i row obj = Throw e → e = TypeError.
Proof.
  revert i obj. induction cols as [|c cols IH]; intros i obj; simpl; [discriminate|].
  intros H. apply bind_Throw in H as [H|(v & _ & H)].
  - eapply get_index_error, H.
  - eapply IH, H.
Qed.

Lemma row_to_record_error cols row e : row_to_record cols row = Throw e → e = TypeError.
Proof.
  unfold row_to_record. intros H. apply bind_Throw in H as [H|(o & _ & H)].
  - eapply fill_record_error, H.
  - discriminate.
Qed.

Lemma detectColumnType_records this name :
  forallb is_record (data this) = true →
  detectColumnType this name = Ok (column_dtype (field name <$> data this)).
Proof.
  intros H. unfold detectColumnType. rewrite (getColumn_records _ _ H). reflexivity.
Qed.

Lemma detectColumnTypes_loop_records this names acc :
  forallb is_record (data this) = true →
  ∃ dt, detectColumnTypes_loop this names acc = Ok dt.
Proof.
  intros H. revert acc. induction names as [|c names IH]; intros acc; simpl.
  - eauto.
  - rewrite (detectColumnType_records _ _ H). simpl. apply IH.
Qed.

Lemma finish_construction_records cols rows :
  forallb is_record rows = true →
  ∃ dt, finish_construction cols rows
        = Ok {| columns := cols; data := rows; dtypes := dt |}.
Proof.
  intros H. unfold finish_construction.
  destruct (detectColumnTypes_loop_records
              {| columns := cols; data := rows; dtypes := [] |} cols [] H) as [dt Hdt].
  exists dt. unfold detectColumnTypes. simpl. rewrite Hdt. reflexivity.
Qed.

Lemma fill_record_array cols i elems obj :
  ∃ o, fill_record cols i (VArr elems) obj = Ok o.
Proof.
  revert i obj. induction cols as [|c cols IH]; intros i obj; simpl; eauto.
Qed.

Lemma mapR_row_to_record_arrays cols rows :
  forallb isArray rows = true →
  ∃ recs, mapR (row_to_record cols) rows = Ok recs ∧ forallb is_record recs = true.
Proof.
  induction rows as [|row rows IH]; simpl; intros H.
  - exists []. auto.
  - apply andb_prop in H as [Hrow Hrows]. destruct row; try discriminate.
    destruct (IH Hrows) as (recs & -> & Hrecs).
    unfold row_to_record at 1.
    destruct (fill_record_array cols 0 elems []) as [o ->]. simpl.
    exists (VObj o :: recs). simpl. auto.
Qed.

(** C3, counterexample: an array of numbers is neither an array of arrays
    nor an array of records, yet the constructor accepts it; and the empty
    sequence without column names fails, but with a TypeError. *)
Lemma constructor_accepts_array_of_numbers :
  array_of_arrays numbers_input = false
  ∧ array_of_records numbers_input = false
  ∧ DataFrame_new numbers_input None
    = Ok {| columns := []; data := [VNum 1; VNum 2; VNum 3]; dtypes := [] |}
  ∧ array_of_records (VArr []) = true
  ∧ DataFrame_new (VArr []) None = Throw TypeError.
Proof. repeat split; reflexivity. Qed.

(** C3, amended: the constructor fails with InvalidInputFormat exactly when
    the input is not an array and its element 0 (which must be readable) is
    not an array either; so every array is accepted by this check.  For a
    non-empty array of arrays, and for an array of records that is
    non-empty or comes with column names, construction succeeds. *)
Theorem constructor_InvalidInputFormat_iff :
  ∀ (d : value) (cols : option (list string)),
    (DataFrame_new d cols = Throw InvalidInputFormat
     ↔ isArray d = false ∧ ∃ d0, get_index d 0 = Ok d0 ∧ isArray d0 = false)
    ∧ (array_of_arrays d = true → d ≠ VArr [] →
       ∃ df, DataFrame_new d cols = Ok df)
    ∧ (array_of_records d = true → d ≠ VArr [] ∨ cols ≠ None →
       ∃ df, DataFrame_new d cols = Ok df).
Proof.
  intros d cols. split; [split|split].
  - intros H. unfold DataFrame_new in H.
    apply bind_Throw in H as [H|(d0 & Hd0 & H)].
    { apply get_index_error in H. discriminate. }
    destruct d0.
    all: try (destruct d;
              [ split; [reflexivity | eexists; split; [exact Hd0 | reflexivity]] ..
              | exfalso;
                destruct (if truthy _ then _ else _);
                [ apply finish_construction_error in H; discriminate
                | discriminate ]
              | split; [reflexivity | eexists; split; [exact Hd0 | reflexivity]] ]).
    exfalso. destruct d; try discriminate.
    apply bind_Throw in H as [H|(recs & _ & H)].
    + apply mapR_Throw in H as (row & _ & H).
      apply row_to_record_error in H. discriminate.
    + apply finish_construction_error in H. discriminate.
  - intros (Hd & d0 & Hd0 & Hd0').
    unfold DataFrame_new. rewrite Hd0. simpl.
    destruct d0; try discriminate; destruct d; try discriminate; reflexivity.
  - intros Hd Hne. destruct d as [| | | | | rows |]; try discriminate.
    destruct rows as [|row rows]; [contradiction|].
    simpl in Hd. pose proof Hd as Hd'.
    apply andb_prop in Hd as [Hrow _]. destruct row as [| | | | | first |]; try discriminate.
    unfold DataFrame_new. simpl.
    set (cs := match cols with
               | Some cs0 => if (length cs0 =? length first)%nat then cs0
                             else auto_columns (length first)
               | None => auto_columns (length first)
               end).
    destruct (mapR_row_to_record_arrays cs (VArr first :: rows) Hd')
      as (recs & Hrecs & Hrec).
    simpl in Hrecs. rewrite Hrecs. simpl.
    destruct (finish_construction_records cs recs Hrec) as [dt Hdt]. eauto.
  - intros Hd Hne. destruct d as [| | | | | rows |]; try discriminate.
    simpl in Hd. unfold DataFrame_new.
    destruct rows as [|row rows].
    + simpl. destruct cols as [cs|].
      * destruct (finish_construction_records cs [] eq_refl) as [dt Hdt]. eauto.
      * destruct Hne as [Hne|Hne]; contradiction.
    + pose proof Hd as Hd'. simpl in Hd. apply andb_prop in Hd as [Hrow _].
      destruct row as [| | | | | |props]; try discriminate. simpl.
      destruct (finish_construction_records (props.*1) (VObj props :: rows) Hd')
        as [dt Hdt]. eauto.
Qed.

(** ** Type inspection *)

Lemma fold_set_add_elem {A : Type} `{EqDecision A} (l : list A) : ∀ acc x,
  x ∈ fold_left set_add l acc ↔ x ∈ acc ∨ x ∈ l.
Proof.
  induction l as [|y l IH]; intros acc x; simpl.
  - rewrite elem_of_nil. tauto.
  - rewrite IH, elem_of_cons. unfold set_add. case_bool_decide as Hy.
    + split; [tauto|]. intros [H|[->|H]]; auto.
    + rewrite elem_of_app, list_elem_of_singleton. tauto.
Qed.

Lemma fold_set_add_NoDup {A : Type} `{EqDecision A} (l : list A) :
  ∀ acc, NoDup acc → NoDup (fold_left set_add l acc).
Proof.
  induction l as [|y l IH]; intros acc Hacc; simpl; [exact Hacc|].
  apply IH. unfold set_add. case_bool_decide as Hy; [exact Hacc|].
  apply NoDup_app. split; [exact Hacc|]. split.
  - intros x Hx Hx'. apply list_elem_of_singleton in Hx'. subst x. contradiction.
  - apply NoDup_singleton.
Qed.


Lemma column_dtype_empty : column_dtype [] = "mixed".
Proof. reflexivity. Qed.



Lemma detectColumnTypes_loop_data this this' names acc :
  data this = data this' →
  detectColumnTypes_loop this names acc = detectColumnTypes_loop this' names acc.
Proof.
  intros Hd. revert acc. induction names as [|c names IH]; intros acc; simpl.
  - reflexivity.
  - unfold detectColumnType, getColumn. rewrite Hd.
    destruct (mapR _ (data this')); simpl; [apply IH | reflexivity].
Qed.



Lemma finish_construction_Ok cols rows df :
  finish_construction cols rows = Ok df →
  columns df = cols ∧ data df = rows ∧ dtypes_current df.
Proof.
  unfold finish_construction. intros H. apply bind_Ok in H as (dt & Hdt & [= <-]).
  repeat split. unfold dtypes_current, detectColumnTypes, set_dtypes. simpl.
  rewrite <- Hdt. apply detectColumnTypes_loop_data. reflexivity.
Qed.

Lemma DataFrame_new_dtypes d cols df :
  DataFrame_new d cols = Ok df → dtypes_current df.
Proof.
  unfold DataFrame_new. intros H. apply bind_Ok in H as (d0 & _ & H).
  assert (Hb : ∀ rows,
             match (if truthy d0 then Some (Object_keys d0) else cols) with
             | Some cs => finish_construction cs rows
             | None => Throw TypeError
             end = Ok df → dtypes_current df).
  { intros rows. destruct (if truthy d0 then _ else _); [|discriminate].
    intros H'. apply finish_construction_Ok in H'. tauto. }
  destruct d0; try (destruct d; first [ discriminate | eapply Hb, H ]).
  destruct d; try discriminate.
  apply bind_Ok in H as (recs & _ & H). apply finish_construction_Ok in H. tauto.
Qed.

Lemma mapR_VObj_records {A : Type} (f : A → result (list (string * value))) l recs :
  mapR (λ row, VObj <$> f row) l = Ok recs → forallb is_record recs = true.
Proof.
  revert recs. induction l as [|x l IH]; simpl; intros recs.
  - intros [= <-]. reflexivity.
  - destruct (f x); simpl; [|discriminate].
    destruct (mapR _ l); simpl; [|discriminate].
    intros [= <-]. simpl. apply IH. reflexivity.
Qed.

Lemma assign_fields_records this newColumns newData :
  forallb is_record newData = true →
  ∃ dt, assign_fields this newColumns newData
        = (Ok (), {| columns := newColumns; data := newData; dtypes := dt |})
        ∧ dtypes_current {| columns := newColumns; data := newData; dtypes := dt |}.
Proof.
  intros H. unfold assign_fields.
  set (this1 := {| columns := newColumns; data := newData; dtypes := dtypes this |}).
  destruct (detectColumnTypes_loop_records this1 newColumns [] H) as [dt Hdt].
  exists dt. unfold detectColumnTypes. simpl. rewrite Hdt. split; [reflexivity|].
  unfold dtypes_current, detectColumnTypes. simpl. rewrite <- Hdt.
  apply detectColumnTypes_loop_data. reflexivity.
Qed.

Lemma renameColumns_dtypes this mapping :
  dtypes_current this → dtypes_current (renameColumns this mapping).2.
Proof.
  intros H. unfold renameColumns.
  destruct (mapR _ (data this)) as [newData|e] eqn:E; [|exact H].
  apply mapR_VObj_records in E.
  destruct (assign_fields_records this (renamed mapping <$> columns this) newData E)
    as (dt & -> & Hdt). exact Hdt.
Qed.

Lemma dropColumns_dtypes this cols :
  dtypes_current this → dtypes_current (dropColumns this cols).2.
Proof.
  intros H. unfold dropColumns.
  destruct (mapR _ (data this)) as [newData|e] eqn:E; [|exact H].
  apply mapR_VObj_records in E.
  match goal with |- context [assign_fields this ?nc newData] =>
    destruct (assign_fields_records this nc newData E) as (dt & -> & Hdt) end.
  exact Hdt.
Qed.

(** ** Instances in the heap *)

Lemma allocate_invariant (P : DataFrame → Prop) r w :
  (∀ df, r = Ok df → P df) → heap_invariant P w → heap_invariant P (allocate r w).2.
Proof.
  intros Hr Hw. destruct r as [df|e]; simpl; [|exact Hw].
  intros l this. unfold set_heap. cbn [heap].
  destruct (decide (fresh (dom (heap w)) = l)) as [<-|Hne].
  - rewrite lookup_insert_eq. intros [= <-]. apply Hr. reflexivity.
  - rewrite lookup_insert_ne by exact Hne. apply Hw.
Qed.

Lemma update_this_invariant (P : DataFrame → Prop) l w r :
  P r.2 → heap_invariant P w → heap_invariant P (update_this l w r).2.
Proof.
  intros Hr Hw l' this. unfold update_this, set_heap. cbn [heap snd].
  destruct (decide (l = l')) as [<-|Hne].
  - rewrite lookup_insert_eq. intros [= <-]. exact Hr.
  - rewrite lookup_insert_ne by exact Hne. apply Hw.
Qed.

Lemma with_this_invariant {A : Type} (P : DataFrame → Prop) l w
    (body : DataFrame → result A * world) :
  heap_invariant P w →
  (∀ this, heap w !! l = Some this → heap_invariant P (body this).2) →
  heap_invariant P (with_this l w body).2.
Proof.
  intros Hw Hbody. unfold with_this. destruct (heap w !! l) as [this|] eqn:E.
  - apply Hbody. reflexivity.
  - exact Hw.
Qed.

Lemma select_dtypes this cols df : select this cols = Ok df → dtypes_current df.
Proof.
  unfold select. intros H. apply bind_Ok in H as (newData & _ & H).
  eapply DataFrame_new_dtypes, H.
Qed.

Lemma sortBy_dtypes this cols asc df : sortBy this cols asc = Ok df → dtypes_current df.
Proof.
  unfold sortBy. intros H. apply bind_Ok in H as (sortData & _ & H).
  eapply DataFrame_new_dtypes, H.
Qed.

Lemma groupBy_dtypes this cols df : groupBy this cols = Ok df → dtypes_current df.
Proof.
  unfold groupBy. intros H. apply bind_Ok in H as (groups & _ & H).
  eapply DataFrame_new_dtypes, H.
Qed.

Lemma exec_dtypes c w :
  heap_invariant dtypes_current w → heap_invariant dtypes_current (exec c w).
Proof.
  intros Hw. destruct c; simpl.
  - apply allocate_invariant; [|exact Hw]. apply DataFrame_new_dtypes.
  - apply with_this_invariant; [exact Hw|]. intros this Hthis.
    apply update_this_invariant; [|exact Hw].
    apply renameColumns_dtypes. eapply Hw, Hthis.
  - apply with_this_invariant; [exact Hw|]. intros this Hthis.
    apply update_this_invariant; [|exact Hw].
    apply dropColumns_dtypes. eapply Hw, Hthis.
  - apply with_this_invariant; [exact Hw|]. intros this _.
    apply allocate_invariant; [|exact Hw]. apply select_dtypes.
  - apply with_this_invariant; [exact Hw|]. intros this _.
    apply allocate_invariant; [|exact Hw]. apply DataFrame_new_dtypes.
  - apply with_this_invariant; [exact Hw|]. intros this _.
    apply allocate_invariant; [|exact Hw]. apply sortBy_dtypes.
  - apply with_this_invariant; [exact Hw|]. intros this _.
    apply allocate_invariant; [|exact Hw]. apply groupBy_dtypes.
  - apply with_this_invariant; [exact Hw|]. intros this _. exact Hw.
  - apply with_this_invariant; [exact Hw|]. intros this _. exact Hw.
Qed.

Lemma reachable_dtypes w : reachable w → heap_invariant dtypes_current w.
Proof.
  induction 1 as [|c w _ IH].
  - intros l this H. simpl in H. rewrite lookup_empty in H. discriminate.
  - apply exec_dtypes, IH.
Qed.



Ltac by_computation := vm_compute; reflexivity.



(** ** Statistics on a column that does not exist *)

Lemma keys_within_record cols row : keys_within cols row = true → is_record row = true.
Proof. destruct row; simpl; try discriminate. reflexivity. Qed.











Example absent_column_statistics :
  mean test_df "Salary" = Ok PrimFloat.nan
  ∧ median test_df "Salary" = Ok (Element VUndefined)
  ∧ mode test_df "Salary" = Ok [VUndefined]
  ∧ std test_df "Salary" = Ok PrimFloat.nan.
Proof. repeat split; by_computation. Qed.

(** ** Tables built from records *)

Lemma DataFrame_new_records rows cols :
  forallb is_record rows = true →
  ∃ df, DataFrame_new (VArr rows) (Some cols) = Ok df
        ∧ data df = rows
        ∧ columns df = match rows with
                       | VObj props :: _ => props.*1
                       | _ => cols
                       end.
Proof.
  intros H. unfold DataFrame_new. destruct rows as [|row rows].
  - simpl. destruct (finish_construction_records cols [] H) as [dt ->]. eauto.
  - pose proof H as H'. simpl in H. apply andb_prop in H as [Hrow _].
    destruct row as [| | | | | |props]; try discriminate. simpl.
    destruct (finish_construction_records (props.*1) (VObj props :: rows) H')
      as [dt ->]. eauto.
Qed.


Lemma filter_defined_records rows :
  forallb is_record rows = true →
  List.filter (λ v, negb (is_undefined v)) rows = rows.
Proof.
  induction rows as [|row rows IH]; simpl; [reflexivity|].
  intros H. apply andb_prop in H as [Hrow Hrows].
  destruct row; try discriminate. simpl. rewrite (IH Hrows). reflexivity.
Qed.

(** ** Sorting *)

Lemma insert_pure_perm c x s : insert_pure c x s ≡ₚ x :: s.
Proof.
  induction s as [|y ys IH]; simpl; [reflexivity|].
  destruct (c y x <? 0); [|reflexivity].
  rewrite IH. apply perm_swap.
Qed.

Lemma sort_pure_perm c l : sort_pure c l ≡ₚ l.
Proof.
  induction l as [|x l IH]; simpl; [reflexivity|].
  rewrite insert_pure_perm, IH. reflexivity.
Qed.

Lemma sort_insert_pure cmp c x s :
  (∀ y, y ∈ s → cmp y x = Ok (c y x)) →
  sort_insert cmp x s = Ok (insert_pure c x s).
Proof.
  induction s as [|y ys IH]; intros H; simpl; [reflexivity|].
  rewrite (H y) by left. simpl. destruct (c y x <? 0); [|reflexivity].
  rewrite IH; [reflexivity|]. intros z Hz. apply H. right. exact Hz.
Qed.

Lemma insertion_sort_pure cmp c l :
  (∀ x y, x ∈ l → y ∈ l → cmp x y = Ok (c x y)) →
  insertion_sort cmp l = Ok (sort_pure c l).
Proof.
  induction l as [|x l IH]; intros H; simpl; [reflexivity|].
  rewrite IH by (intros a b Ha Hb; apply H; right; assumption). simpl.
  apply sort_insert_pure. intros y Hy. apply H; [right|left].
  rewrite <- (sort_pure_perm c l). exact Hy.
Qed.

Section StableSort.
Variable c : value → value → Z.
Variable P : value → Prop.
Hypothesis c_antisym : ∀ a b, P a → P b → c b a = - c a b.
Hypothesis c_trans : ∀ a b d, P a → P b → P d → c a b ≤ 0 → c b d ≤ 0 → c a d ≤ 0.


Lemma insert_pure_sorted x s :
  P x → Forall P s →
  StronglySorted (λ a b, c a b ≤ 0) s →
  StronglySorted (λ a b, c a b ≤ 0) (insert_pure c x s).
Proof.
  intros Px. induction s as [|y ys IH]; intros HP Hs; simpl.
  - repeat constructor.
  - apply Forall_cons in HP as [Py HPys].
    apply StronglySorted_inv in Hs as [Hys Hy].
    destruct (Z.ltb_spec (c y x) 0) as [Hlt|Hge].
    + constructor; [apply IH; assumption|].
      rewrite insert_pure_perm. constructor; [lia | exact Hy].
    + assert (Hxy : c x y ≤ 0) by (rewrite c_antisym by assumption; lia).
      constructor; [constructor; assumption|].
      constructor; [exact Hxy|].
      rewrite Forall_forall in Hy, HPys. apply Forall_forall. intros z Hz.
      apply (c_trans x y z); auto.
Qed.

Lemma sort_pure_sorted l :
  Forall P l → StronglySorted (λ a b, c a b ≤ 0) (sort_pure c l).
Proof.
  induction l as [|x l IH]; intros HP; simpl; [constructor|].
  apply Forall_cons in HP as [Px HPl].
  apply insert_pure_sorted; [exact Px | | apply IH, HPl].
  rewrite sort_pure_perm. exact HPl.
Qed.


End StableSort.

(** ** The natural order of the values of one primitive type *)

Lemma string_compare_refl s : String.compare s s = Eq.
Proof.
  pose proof (String.compare_antisym s s) as H.
  destruct (String.compare s s); simpl in H; congruence.
Qed.

Lemma string_compare_trans a : ∀ b d,
  String.compare a b = Lt → String.compare b d = Lt → String.compare a d = Lt.
Proof.
  induction a as [|x a IH]; intros [|y b] [|z d]; simpl; try congruence.
  unfold Ascii.compare.
  destruct (N.compare_spec (N_of_ascii x) (N_of_ascii y)) as [Hxy|Hxy|Hxy];
    destruct (N.compare_spec (N_of_ascii y) (N_of_ascii z)) as [Hyz|Hyz|Hyz];
    try discriminate; intros H1 H2.
  - rewrite Hxy, Hyz, N.compare_refl. eapply IH; eassumption.
  - rewrite Hxy. apply N.compare_lt_iff in Hyz. rewrite Hyz. reflexivity.
  - rewrite <- Hyz. apply N.compare_lt_iff in Hxy. rewrite Hxy. reflexivity.
  - assert (H : (N_of_ascii x < N_of_ascii z)%N) by (etransitivity; eassumption).
    apply N.compare_lt_iff in H. rewrite H. reflexivity.
Qed.

Lemma natural_lt_irrefl v : natural_lt v v = false.
Proof.
  destruct v; simpl; try reflexivity.
  - destruct b; reflexivity.
  - apply Z.ltb_irrefl.
  - unfold String.ltb. rewrite string_compare_refl. reflexivity.
Qed.

Lemma natural_lt_trans u v w :
  natural_lt u v = true → natural_lt v w = true → natural_lt u w = true.
Proof.
  destruct u, v; simpl; try discriminate; destruct w; simpl; try discriminate.
  - destruct b, b0, b1; simpl; congruence.
  - rewrite !Z.ltb_lt. lia.
  - unfold String.ltb.
    destruct (String.compare s s0) eqn:E1; try discriminate.
    destruct (String.compare s0 s1) eqn:E2; try discriminate.
    rewrite (string_compare_trans _ _ _ E1 E2). reflexivity.
Qed.

Lemma natural_lt_asym v w : natural_lt v w = true → natural_lt w v = false.
Proof.
  intros H. destruct (natural_lt w v) eqn:E; [|reflexivity].
  pose proof (natural_lt_trans _ _ _ H E) as H'.
  rewrite natural_lt_irrefl in H'. discriminate.
Qed.

Lemma natural_lt_total v w :
  typeof v = typeof w → typeof v ≠ "object" →
  natural_lt v w = false → natural_lt w v = false → v = w.
Proof.
  destruct v, w; simpl; try discriminate; try congruence.
  - intros _ _. destruct b, b0; simpl; congruence.
  - intros _ _. rewrite !Z.ltb_ge. intros. f_equal. lia.
  - intros _ _. unfold String.ltb. rewrite (String.compare_antisym s0 s).
    destruct (String.compare s s0) eqn:E; simpl; try discriminate.
    intros _ _. f_equal. apply String.compare_eq_iff, E.
Qed.

Lemma js_lt_natural v w :
  typeof v = typeof w → typeof v ≠ "object" → js_lt v w = Ok (natural_lt v w).
Proof.
  destruct v, w; simpl; try discriminate; try congruence; try reflexivity.
  intros _ _. unfold js_lt. simpl. destruct b, b0; reflexivity.
Qed.

Lemma sortable_typed cols rows : sortable cols rows = true → typed_rows cols rows.
Proof.
  intros H column a b Hc Ha Hb. unfold sortable in H.
  rewrite forallb_forall in H. apply list_elem_of_In in Hc.
  specialize (H column Hc). unfold single_type in H.
  destruct rows as [|row rows]; [apply elem_of_nil in Ha; contradiction|].
  apply andb_prop in H as [Hobj Hall].
  rewrite forallb_forall in Hall.
  pose proof (Hall a (proj1 (list_elem_of_In _ _) Ha)) as Ea.
  pose proof (Hall b (proj1 (list_elem_of_In _ _) Hb)) as Eb.
  apply String.eqb_eq in Ea, Eb. apply negb_true_iff, String.eqb_neq in Hobj.
  split; congruence.
Qed.

Lemma typed_rows_tail column cols rows :
  typed_rows (column :: cols) rows → typed_rows cols rows.
Proof. intros H c a b Hc. apply H. right. exact Hc. Qed.

Lemma compareRows_typed cols asc rows a b :
  typed_rows cols rows → a ∈ rows → b ∈ rows →
  is_record a = true → is_record b = true →
  compareRows cols asc a b = Ok (compare_keys cols asc a b).
Proof.
  intros Ht Ha Hb Ra Rb. induction cols as [|column cols IH]; simpl; [reflexivity|].
  rewrite (get_prop_record _ _ Ra), (get_prop_record _ _ Rb). simpl.
  destruct (Ht column a b) as [Hab Hobj]; [left | assumption..|].
  rewrite (js_lt_natural _ _ Hab Hobj). simpl.
  destruct (natural_lt (field column a) (field column b)); [reflexivity|].
  rewrite js_lt_natural by congruence. simpl.
  destruct (natural_lt (field column b) (field column a)); [reflexivity|].
  apply IH. eapply typed_rows_tail, Ht.
Qed.

Lemma compare_keys_descending cols a b :
  compare_keys cols false a b = compare_keys cols true b a.
Proof.
  induction cols as [|column cols IH]; simpl; [reflexivity|].
  destruct (natural_lt (field column a) (field column b)) eqn:E1.
  - rewrite (natural_lt_asym _ _ E1). reflexivity.
  - destruct (natural_lt (field column b) (field column a)); [reflexivity | exact IH].
Qed.

Lemma compare_keys_antisym cols asc a b :
  compare_keys cols asc b a = - compare_keys cols asc a b.
Proof.
  induction cols as [|column cols IH]; simpl; [reflexivity|].
  destruct (natural_lt (field column a) (field column b)) eqn:E1.
  - rewrite (natural_lt_asym _ _ E1). destruct asc; reflexivity.
  - destruct (natural_lt (field column b) (field column a)); [|exact IH].
    destruct asc; reflexivity.
Qed.

Lemma compare_keys_trans_ascending cols rows a b d :
  typed_rows cols rows → a ∈ rows → b ∈ rows → d ∈ rows →
  compare_keys cols true a b ≤ 0 → compare_keys cols true b d ≤ 0 →
  compare_keys cols true a d ≤ 0.
Proof.
  intros Ht Ha Hb Hd. induction cols as [|column cols IH]; simpl; [lia|].
  destruct (Ht column a b) as [Tab Ta]; [left | assumption..|].
  destruct (Ht column b d) as [Tbd Tb]; [left | assumption..|].
  destruct (natural_lt (field column a) (field column b)) eqn:Eab.
  - intros _.
    destruct (natural_lt (field column b) (field column d)) eqn:Ebd.
    + intros _. rewrite (natural_lt_trans _ _ _ Eab Ebd). lia.
    + destruct (natural_lt (field column d) (field column b)) eqn:Edb; [lia|].
      intros _. rewrite <- (natural_lt_total _ _ Tbd Tb Ebd Edb), Eab. lia.
  - destruct (natural_lt (field column b) (field column a)) eqn:Eba; [lia|].
    rewrite (natural_lt_total _ _ Tab Ta Eab Eba).
    destruct (natural_lt (field column b) (field column d)); [lia|].
    destruct (natural_lt (field column d) (field column b)); [lia|].
    apply IH. eapply typed_rows_tail, Ht.
Qed.

Lemma compare_keys_trans cols asc rows a b d :
  typed_rows cols rows → a ∈ rows → b ∈ rows → d ∈ rows →
  compare_keys cols asc a b ≤ 0 → compare_keys cols asc b d ≤ 0 →
  compare_keys cols asc a d ≤ 0.
Proof.
  intros Ht Ha Hb Hd. destruct asc.
  - eapply compare_keys_trans_ascending; eassumption.
  - rewrite !compare_keys_descending. intros Hab Hbd.
    apply (compare_keys_trans_ascending cols rows d b a); assumption.
Qed.



Lemma records_perm rows rows' :
  rows ≡ₚ rows' → forallb is_record rows' = true → forallb is_record rows = true.
Proof.
  rewrite !forallb_forall. intros Hp H x Hx. apply H.
  eapply Permutation_in; [exact Hp | exact Hx].
Qed.





(** A stable sort on a tie: Jane and Sam share the age and keep their order. *)
Example sortBy_tie :
  data <$> sortBy
    {| columns := ["ID"; "Name"; "Age"];
       data := [person 1 "John" 30; person 2 "Jane" 25; person 3 "Sam" 25];
       dtypes := [] |} ["Age"] true
  = Ok [person 2 "Jane" 25; person 3 "Sam" 25; person 1 "John" 30].
Proof. by_computation. Qed.

(** ** Grouping *)

Lemma group_key_record cols row :
  is_record row = true → group_key cols row = Ok (row_key cols row).
Proof.
  intros H. unfold group_key, row_key, key_values.
  rewrite (mapR_pure (get_prop row) (λ c, field c row)); [reflexivity|].
  intros c _. apply get_prop_record, H.
Qed.

Lemma group_loop_records cols rows : ∀ groups,
  forallb is_record rows = true →
  group_loop cols rows groups = Ok (fold_left (group_step cols) rows groups).
Proof.
  induction rows as [|row rows IH]; intros groups H; simpl; [reflexivity|].
  simpl in H. apply andb_prop in H as [Hrow Hrows].
  rewrite (group_key_record _ _ Hrow). simpl. apply IH, Hrows.
Qed.

Lemma Map_has_keys {A : Type} key (m : list (string * A)) :
  Map_has key m = bool_decide (key ∈ m.*1).
Proof.
  unfold Map_has. destruct (prop_get key m) eqn:E.
  - symmetry. apply bool_decide_eq_true_2.
    destruct (decide (key ∈ m.*1)) as [H|H]; [exact H|].
    apply prop_get_None in H. congruence.
  - symmetry. apply bool_decide_eq_false_2. apply prop_get_None, E.
Qed.

Lemma Map_push_keys key row m : (Map_push key row m).*1 = m.*1.
Proof.
  induction m as [|[k b] m IH]; simpl; [reflexivity|].
  destruct (String.eqb key k); simpl; [reflexivity | f_equal; exact IH].
Qed.

Lemma prop_get_Map_push key' key row m :
  prop_get key' (Map_push key row m)
  = if String.eqb key' key then (λ b, b ++ [row])%list <$> prop_get key m
    else prop_get key' m.
Proof.
  induction m as [|[k b] m IH]; simpl.
  - destruct (String.eqb key' key); reflexivity.
  - destruct (String.eqb_spec key k) as [->|Hk]; simpl.
    + destruct (String.eqb_spec key' k) as [->|Hk']; reflexivity.
    + destruct (String.eqb_spec key' k) as [->|Hk'].
      * destruct (String.eqb_spec k key); [congruence | reflexivity].
      * exact IH.
Qed.

Lemma prop_set_absent_keys {A : Type} key (v : A) m :
  key ∉ m.*1 → (prop_set key v m).*1 = (m.*1 ++ [key])%list.
Proof.
  induction m as [|[k b] m IH]; simpl; intros H; [reflexivity|].
  apply not_elem_of_cons in H as [Hne Hm].
  destruct (String.eqb_spec key k); [contradiction|]. simpl. f_equal. apply IH, Hm.
Qed.

Lemma group_step_keys cols groups row :
  (group_step cols groups row).*1 = set_add groups.*1 (row_key cols row).
Proof.
  unfold group_step, set_add. rewrite Map_push_keys, Map_has_keys.
  case_bool_decide as H; [reflexivity|]. apply prop_set_absent_keys, H.
Qed.

Lemma group_step_lookup cols groups row key :
  prop_get key (group_step cols groups row)
  = if String.eqb key (row_key cols row)
    then Some (default [] (prop_get (row_key cols row) groups) ++ [row])%list
    else prop_get key groups.
Proof.
  unfold group_step. rewrite prop_get_Map_push.
  destruct (String.eqb_spec key (row_key cols row)) as [->|Hne].
  - unfold Map_has. destruct (prop_get (row_key cols row) groups) eqn:E.
    + rewrite E. reflexivity.
    + rewrite prop_get_set_eq. reflexivity.
  - unfold Map_has. destruct (prop_get (row_key cols row) groups); [reflexivity|].
    apply prop_get_set_ne, Hne.
Qed.

Lemma group_fold_keys cols rows : ∀ groups,
  (fold_left (group_step cols) rows groups).*1
  = fold_left set_add (row_key cols <$> rows) groups.*1.
Proof.
  induction rows as [|row rows IH]; intros groups; simpl; [reflexivity|].
  rewrite IH, group_step_keys. reflexivity.
Qed.

Lemma group_fold_lookup cols rows key : ∀ groups,
  prop_get key (fold_left (group_step cols) rows groups)
  = match prop_get key groups with
    | Some b => Some (b ++ bucket cols rows key)%list
    | None => if bool_decide (key ∈ row_key cols <$> rows)
              then Some (bucket cols rows key) else None
    end.
Proof.
  induction rows as [|row rows IH]; intros groups.
  - simpl. destruct (prop_get key groups); [rewrite app_nil_r|]; reflexivity.
  - cbn [fold_left]. rewrite IH, group_step_lookup. unfold bucket. cbn [List.filter fmap list_fmap].
    rewrite (String.eqb_sym (row_key cols row) key).
    destruct (String.eqb_spec key (row_key cols row)) as [->|Hne].
    + destruct (prop_get (row_key cols row) groups); simpl.
      * rewrite <- app_assoc. reflexivity.
      * rewrite bool_decide_eq_true_2 by left. reflexivity.
    + destruct (prop_get key groups); [reflexivity|].
      rewrite (bool_decide_ext (key ∈ row_key cols row :: list_fmap _ _ (row_key cols) rows)
                 (key ∈ list_fmap _ _ (row_key cols) rows)); [reflexivity|].
      rewrite elem_of_cons. tauto.
Qed.

Lemma map_by_lookup {A : Type} (F : string → A) (m : list (string * A)) :
  NoDup m.*1 → (∀ k, k ∈ m.*1 → prop_get k m = Some (F k)) → m.*2 = F <$> m.*1.
Proof.
  induction m as [|[k v] m IH]; simpl; intros Hnd H; [reflexivity|].
  apply NoDup_cons in Hnd as [Hk Hnd]. f_equal.
  - assert (Hin : k ∈ k :: m.*1) by left.
    apply H in Hin. rewrite String.eqb_refl in Hin. congruence.
  - apply IH; [exact Hnd|]. intros k' Hk'.
    assert (Hin : k' ∈ k :: m.*1) by (right; exact Hk').
    apply H in Hin.
    destruct (String.eqb_spec k' k) as [->|Hne]; [contradiction | exact Hin].
Qed.

Lemma group_loop_buckets cols rows :
  forallb is_record rows = true →
  ∃ groups, group_loop cols rows [] = Ok groups
            ∧ groups.*2 = group_buckets cols rows.
Proof.
  intros H. exists (fold_left (group_step cols) rows []).
  split; [apply group_loop_records, H|].
  unfold group_buckets, group_keys, Set_values.
  pose proof (group_fold_keys cols rows []) as Hkeys. simpl in Hkeys.
  rewrite <- Hkeys. apply map_by_lookup.
  - rewrite Hkeys. apply fold_set_add_NoDup, NoDup_nil_2.
  - intros k Hk. rewrite group_fold_lookup. simpl.
    rewrite Hkeys in Hk. apply fold_set_add_elem in Hk as [Hk|Hk].
    + apply elem_of_nil in Hk. contradiction.
    + rewrite bool_decide_eq_true_2 by exact Hk. reflexivity.
Qed.

Lemma fill_record_array_eq cols : ∀ i elems obj,
  fill_record cols i (VArr elems) obj = Ok (fill_array cols i elems obj).
Proof.
  induction cols as [|c cols IH]; intros i elems obj; simpl; [reflexivity | apply IH].
Qed.

Lemma mapR_row_to_record_buckets cols buckets :
  mapR (row_to_record cols) (VArr <$> buckets) = Ok (grouped_record cols <$> buckets).
Proof.
  induction buckets as [|b buckets IH]; simpl; [reflexivity|].
  change (list_fmap _ _ VArr buckets) with (VArr <$> buckets). rewrite IH.
  unfold row_to_record. rewrite fill_record_array_eq. reflexivity.
Qed.

Lemma grouped_records cols buckets :
  forallb is_record (grouped_record cols <$> buckets) = true.
Proof. induction buckets as [|b buckets IH]; simpl; [reflexivity | exact IH]. Qed.







(** ** Derivation leaves the receiver alone *)












(** By contrast renameColumns rewrites the receiver in place. *)
Example rename_in_place :
  heap world_constructed !! 0%nat = Some test_df
  ∧ heap world_renamed !! 0%nat = Some renamed_df
  ∧ columns renamed_df = ["IDNumber"; "FullName"; "Age"].
Proof. repeat split; by_computation. Qed.

(** ** Mode *)

Local Open Scope list_scope.

Lemma distinct_keys_spec l :
  distinct_keys l = true →
  (∀ v, v ∈ l → ToString v ∉ Object_prototype_names)
  ∧ (∀ v w, v ∈ l → w ∈ l → ToString v = ToString w → v = w).
Proof.
  unfold distinct_keys. rewrite forallb_forall. intros H. split.
  - intros v Hv. apply list_elem_of_In, H, andb_prop in Hv as [Hv _].
    apply negb_true_iff, bool_decide_eq_false in Hv. exact Hv.
  - intros v w Hv Hw E. apply list_elem_of_In, H, andb_prop in Hv as [_ Hv].
    rewrite forallb_forall in Hv. apply list_elem_of_In, Hv in Hw.
    rewrite E, String.eqb_refl in Hw. simpl in Hw.
    apply bool_decide_eq_true in Hw. exact Hw.
Qed.

Lemma occurrences_snoc l x v :
  occurrences (l ++ [x]) v
  = (occurrences l v + if bool_decide (x = v) then 1 else 0)%nat.
Proof.
  unfold occurrences. rewrite count_occ_app. simpl.
  destruct (value_eq_dec x v); case_bool_decide; try contradiction; reflexivity.
Qed.

Lemma occurrences_elem l v : v ∈ l ↔ (0 < occurrences l v)%nat.
Proof. rewrite list_elem_of_In. apply count_occ_In. Qed.

Lemma foldr_max_bound (g : value → nat) (l : list value) v :
  v ∈ l → (g v ≤ foldr (λ v m, Nat.max (g v) m) 0 l)%nat.
Proof.
  induction l as [|x l IH]; intros H; [apply elem_of_nil in H; contradiction|].
  simpl. apply elem_of_cons in H as [->|H]; [lia|]. specialize (IH H). lia.
Qed.

Lemma foldr_max_attained (g : value → nat) (l : list value) :
  l ≠ [] → ∃ v, v ∈ l ∧ g v = foldr (λ v m, Nat.max (g v) m) 0%nat l.
Proof.
  induction l as [|x l IH]; intros H; [contradiction|]. simpl.
  destruct l as [|y l].
  - exists x. split; [left|]. simpl. lia.
  - destruct IH as (v & Hv & E); [discriminate|].
    destruct (Nat.max_spec_le (g x) (foldr (λ v m, Nat.max (g v) m) 0%nat (y :: l)))
      as [[_ Hmax]|[_ Hmax]]; rewrite Hmax.
    + exists v. split; [right; exact Hv | exact E].
    + exists x. split; [left | reflexivity].
Qed.

Lemma max_count_unique l m :
  (∀ v, (occurrences l v ≤ m)%nat) →
  (m = 0%nat ∧ l = [] ∨ ∃ v, occurrences l v = m ∧ (0 < m)%nat) →
  max_count l = m.
Proof.
  intros Hle [[-> ->]|(v & Hv & Hm)]; [reflexivity|].
  unfold max_count. apply Nat.le_antisymm.
  - destruct l as [|x l]; [simpl; lia|].
    destruct (foldr_max_attained (occurrences (x :: l)) (x :: l)) as (u & _ & <-);
      [discriminate | apply Hle].
  - rewrite <- Hv. apply foldr_max_bound, occurrences_elem. lia.
Qed.

Section ModeLoop.
Variable l : list value.
Hypothesis no_inherited_key : ∀ v, v ∈ l → ToString v ∉ Object_prototype_names.
Hypothesis keys_injective : ∀ v w, v ∈ l → w ∈ l → ToString v = ToString w → v = w.

Lemma mode_invariant_initial : mode_invariant l [] ∅ 0%nat [].
Proof.
  constructor.
  - intros v _. apply lookup_empty.
  - intros v. simpl. lia.
  - left. auto.
  - intros v. split; [intros H; apply elem_of_nil in H; contradiction | lia].
  - apply NoDup_nil_2.
  - exists []. repeat constructor.
Qed.

Lemma positions_extend (p : list value) (x : value) maxFrequency positions modes :
  Forall (λ i, (i < length p)%nat) positions →
  Forall2 (λ i v, p !! i = Some v ∧ occurrences (take (S i) p) v = maxFrequency)
          positions modes →
  Forall2 (λ i v, (p ++ [x]) !! i = Some v
                  ∧ occurrences (take (S i) (p ++ [x])) v = maxFrequency)
          positions modes.
Proof.
  intros Hlt H. induction H as [|i v positions modes [Hi Hv] H IH]; [constructor|].
  apply Forall_cons in Hlt as [Hi' Hlt].
  constructor; [|apply IH, Hlt]. split.
  - rewrite lookup_app_l by exact Hi'. exact Hi.
  - rewrite take_app_le by lia. exact Hv.
Qed.

Lemma position_last (p : list value) (x : value) :
  (p ++ [x]) !! length p = Some x
  ∧ take (S (length p)) (p ++ [x]) = (p ++ [x])%list.
Proof.
  split.
  - rewrite lookup_app_r by lia. rewrite Nat.sub_diag. reflexivity.
  - apply take_ge. rewrite length_app. simpl. lia.
Qed.

Lemma sorted_snoc positions n :
  StronglySorted lt positions → Forall (λ i, (i < n)%nat) positions →
  StronglySorted lt (positions ++ [n]).
Proof.
  induction 1 as [|i positions Hs IH Hi]; intros Hlt; simpl.
  - repeat constructor.
  - apply Forall_cons in Hlt as [Hin Hlt]. constructor; [apply IH, Hlt|].
    apply Forall_app. split; [exact Hi | repeat constructor; exact Hin].
Qed.

Lemma mode_invariant_step p x rest frequencyMap maxFrequency modes :
  l = (p ++ x :: rest)%list →
  mode_invariant l p frequencyMap maxFrequency modes →
  ∃ frequencyMap' maxFrequency' modes',
    mode_loop (x :: rest) frequencyMap maxFrequency modes
    = mode_loop rest frequencyMap' maxFrequency' modes'
    ∧ mode_invariant l (p ++ [x]) frequencyMap' maxFrequency' modes'.
Proof.
  intros Hl [Hfreq Hbound Hatt Hmodes Hnd (positions & Hsorted & Hlt & Hpos)].
  assert (Hx : x ∈ l).
  { rewrite Hl. apply elem_of_app. right. left. }
  cbn [mode_loop].
  rewrite bool_decide_eq_false_2 by (apply no_inherited_key, Hx).
  set (f := match frequencyMap !! ToString x with
            | Some n => (n + 1)%nat
            | None => 1%nat
            end).
  assert (Hf : f = (occurrences p x + 1)%nat).
  { unfold f. rewrite (Hfreq x Hx).
    destruct (Nat.eqb_spec (occurrences p x) 0) as [->|_]; reflexivity. }
  assert (Hfx : occurrences (p ++ [x]) x = f).
  { rewrite occurrences_snoc, bool_decide_eq_true_2 by reflexivity. lia. }
  assert (Hother : ∀ v, v ≠ x → occurrences (p ++ [x]) v = occurrences p v).
  { intros v Hv. rewrite occurrences_snoc, bool_decide_eq_false_2 by congruence. lia. }
  assert (Hfreq' : ∀ v, v ∈ l →
            <[ToString x := f]> frequencyMap !! ToString v
            = if (occurrences (p ++ [x]) v =? 0)%nat then None
              else Some (occurrences (p ++ [x]) v)).
  { intros v Hv. destruct (decide (v = x)) as [->|Hne].
    - rewrite lookup_insert_eq, Hfx.
      destruct (Nat.eqb_spec f 0); [lia | reflexivity].
    - rewrite lookup_insert_ne, (Hother v Hne); [apply Hfreq, Hv|].
      intros E. apply Hne. symmetry. apply keys_injective; assumption. }
  pose proof (Hbound x) as Hbx.
  destruct (position_last p x) as [Hlast Htake].
  destruct (Nat.ltb_spec maxFrequency f) as [Hgt|Hle].
  - exists (<[ToString x := f]> frequencyMap), f, [x]. split; [reflexivity|].
    constructor; try exact Hfreq'.
    + intros v. destruct (decide (v = x)) as [->|Hne]; [lia|].
      rewrite (Hother v Hne). specialize (Hbound v). lia.
    + right. exists x. split; [exact Hfx | lia].
    + intros v. rewrite list_elem_of_singleton. split.
      * intros ->. split; [lia | exact Hfx].
      * intros [_ Hv]. destruct (decide (v = x)) as [->|Hne]; [reflexivity|].
        rewrite (Hother v Hne) in Hv. specialize (Hbound v). lia.
    + apply NoDup_singleton.
    + exists [length p]. split; [repeat constructor|]. split.
      * repeat constructor. rewrite length_app. simpl. lia.
      * repeat constructor; [exact Hlast | rewrite Htake; exact Hfx].
  - destruct (Nat.eqb_spec f maxFrequency) as [Heq|Hne].
    + exists (<[ToString x := f]> frequencyMap), maxFrequency, (modes ++ [x])%list.
      split; [reflexivity|].
      constructor; try exact Hfreq'.
      * intros v. destruct (decide (v = x)) as [->|Hv]; [lia|].
        rewrite (Hother v Hv). apply Hbound.
      * right. exists x. split; lia.
      * intros v. rewrite elem_of_app, list_elem_of_singleton, Hmodes.
        destruct (decide (v = x)) as [->|Hv].
        -- split; [intros _; split; lia | auto].
        -- rewrite (Hother v Hv). tauto.
      * apply NoDup_app. split; [exact Hnd|]. split; [|apply NoDup_singleton].
        intros v Hv Hv'. apply list_elem_of_singleton in Hv'. subst v.
        apply Hmodes in Hv. lia.
      * exists (positions ++ [length p])%list. split; [|split].
        -- apply sorted_snoc; assumption.
        -- apply Forall_app. split.
           ++ eapply Forall_impl; [exact Hlt|]. intros i Hi. simpl in Hi. rewrite length_app. simpl. lia.
           ++ repeat constructor. rewrite length_app. simpl. lia.
        -- apply Forall2_app; [apply positions_extend; assumption|].
           repeat constructor; [exact Hlast | rewrite Htake; lia].
    + exists (<[ToString x := f]> frequencyMap), maxFrequency, modes.
      split; [reflexivity|].
      constructor; try exact Hfreq'; try exact Hnd.
      * intros v. destruct (decide (v = x)) as [->|Hv]; [lia|].
        rewrite (Hother v Hv). apply Hbound.
      * right. destruct Hatt as [[-> _]|(v & Hv & Hpos')]; [lia|].
        exists v. split; [|exact Hpos'].
        rewrite Hother; [exact Hv|]. intros ->. lia.
      * intros v. rewrite Hmodes. destruct (decide (v = x)) as [->|Hv].
        -- split; intros [_ E]; lia.
        -- rewrite (Hother v Hv). tauto.
      * exists positions. split; [exact Hsorted|]. split.
        -- eapply Forall_impl; [exact Hlt|]. intros i Hi. simpl in Hi. rewrite length_app. simpl. lia.
        -- apply positions_extend; assumption.
Qed.

Lemma mode_loop_invariant rest : ∀ p frequencyMap maxFrequency modes,
  l = (p ++ rest)%list →
  mode_invariant l p frequencyMap maxFrequency modes →
  ∃ frequencyMap' maxFrequency',
    mode_invariant l l frequencyMap' maxFrequency'
      (mode_loop rest frequencyMap maxFrequency modes).
Proof.
  induction rest as [|x rest IH]; intros p frequencyMap maxFrequency modes Hl Hinv.
  - rewrite app_nil_r in Hl. subst p. simpl. eauto.
  - destruct (mode_invariant_step p x rest _ _ _ Hl Hinv)
      as (frequencyMap' & maxFrequency' & modes' & -> & Hinv').
    apply (IH (p ++ [x])%list); [|exact Hinv'].
    rewrite Hl, <- app_assoc. reflexivity.
Qed.

Lemma column_mode_specified : mode_as_specified l (column_mode l).
Proof.
  destruct (mode_loop_invariant l [] ∅ 0%nat [] eq_refl mode_invariant_initial)
    as (frequencyMap & maxFrequency
        & [_ Hbound Hatt Hmodes Hnd (positions & Hsorted & _ & Hpos)]).
  fold (column_mode l) in *.
  assert (Hmax : max_count l = maxFrequency) by (apply max_count_unique; assumption).
  unfold mode_as_specified. rewrite Hmax. split; [exact Hnd|]. split.
  - intros v. rewrite Hmodes, occurrences_elem. split; intros [H1 H2]; split; lia.
  - exists positions. split; [exact Hsorted | exact Hpos].
Qed.
End ModeLoop.

(** C6, counterexample: the number 1 and the string 1 are distinct values,
    each occurring once, so both have the greatest count; but they share the
    property key, the string is tallied as a second occurrence, and mode
    returns the string alone. *)
Lemma mode_merges_number_and_string :
  getColumn mixed_df "a" = Ok [VNum 1; VStr "1"]
  ∧ mode mixed_df "a" = Ok [VStr "1"]
  ∧ ¬ mode_as_specified [VNum 1; VStr "1"] [VStr "1"].
Proof.
  split; [by_computation|]. split; [by_computation|].
  intros (_ & Hmem & _). destruct (Hmem (VNum 1)) as [_ H].
  assert (Hin : VNum 1 ∈ [VStr "1"]).
  { apply H. split; [left | reflexivity]. }
  apply list_elem_of_singleton in Hin. discriminate.
Qed.

(** A value whose key is a member inherited from Object.prototype is never
    tallied. *)
Example mode_of_inherited_key :
  column_mode [VStr "constructor"; VStr "constructor"; VStr "x"] = [VStr "x"].
Proof. by_computation. Qed.

(** C6, amended: when distinct values of the column have distinct property
    keys, none of them a name inherited from Object.prototype (as for a
    column of numbers, or of booleans), mode returns each value whose number
    of occurrences is the greatest, once, in the order of the positions at
    which the running count of each reaches that number. *)
Theorem mode_of_distinct_keys :
  ∀ (this : DataFrame) (name : string) (vals : list value),
    getColumn this name = Ok vals →
    distinct_keys vals = true →
    ∃ ms, mode this name = Ok ms ∧ mode_as_specified vals ms.
Proof.
  intros this name vals Hvals Hkeys.
  apply distinct_keys_spec in Hkeys as [Hinherited Hinjective].
  exists (column_mode vals). split.
  - unfold mode. rewrite Hvals. reflexivity.
  - apply column_mode_specified; assumption.
Qed.

Lemma mode_of_distinct_keys_witness :
  getColumn test_df "Age" = Ok [VNum 25; VNum 30; VNum 28]
  ∧ distinct_keys [VNum 25; VNum 30; VNum 28] = true
  ∧ ∃ ms, mode test_df "Age" = Ok ms
          ∧ mode_as_specified [VNum 25; VNum 30; VNum 28] ms.
Proof.
  assert (H1 : getColumn test_df "Age" = Ok [VNum 25; VNum 30; VNum 28])
    by by_computation.
  assert (H2 : distinct_keys [VNum 25; VNum 30; VNum 28] = true) by by_computation.
  split; [exact H1|]. split; [exact H2|].
  exact (mode_of_distinct_keys test_df "Age" [VNum 25; VNum 30; VNum 28] H1 H2).
Defined.

Example mode_with_ties :
  column_mode [VNum 1; VNum 2; VNum 1; VNum 2; VNum 3] = [VNum 1; VNum 2].
Proof. by_computation. Qed.

(** ** The Map keys of primitive key values

    JSON.stringify is injective on lists of numbers, strings and booleans:
    for such key values, rows share a bucket exactly when the values are
    equal. *)

Local Open Scope string_scope.





















(** ** What groupBy returns *)




(** * Further properties of the class *)

Local Open Scope Z_scope.
Local Open Scope list_scope.

(** ** Column and row access *)

Lemma mapR_length {A B : Type} (g : A → result B) (l : list A) ys :
  mapR g l = Ok ys → length ys = length l.
Proof.
  revert ys. induction l as [|x l IH]; simpl; intros ys.
  - intros [= <-]. reflexivity.
  - destruct (g x); simpl; [|discriminate].
    destruct (mapR g l); simpl; [|discriminate].
    intros [= <-]. simpl. f_equal. apply IH. reflexivity.
Qed.

(** X1: get fails with ColumnNotFound exactly when the name is not in
    columns; what it returns has one value per row; on a table of records
    it returns, for a name in columns that is not the name of a member
    every object inherits, the fields of that name in row order. *)
Theorem get_column_values :
  ∀ (this : DataFrame) (name : string),
    (get this name = Throw ColumnNotFound ↔ name ∉ columns this)
    ∧ (∀ vals, get this name = Ok vals → length vals = length (data this))
    ∧ (forallb is_record (data this) = true → name ∈ columns this →
       name ∉ Object_prototype_names →
       get this name = Ok (field name <$> data this)).
Proof.
  intros this name. unfold get, getColumnData. case_bool_decide as Hin.
  - split; [|split].
    + split; [|contradiction]. intros H.
      apply mapR_Throw in H as (row & _ & H). apply get_prop_error in H. discriminate.
    + intros vals. apply mapR_length.
    + intros Hrec _ _. apply (getColumn_records this name Hrec).
  - split; [tauto|]. split; [discriminate | contradiction].
Qed.

(** X2: for a positive count, head returns the first min(n, rowCount) rows
    and tail the last min(n, rowCount) rows, in row order. *)
Theorem head_tail_positive :
  ∀ (this : DataFrame) (n : Z),
    0 < n →
    head this n = take (Z.to_nat (Z.min n (Z.of_nat (length (data this))))) (data this)
    ∧ tail this n
      = drop (length (data this) - Z.to_nat (Z.min n (Z.of_nat (length (data this)))))
             (data this).
Proof.
  intros this n Hn. split; [apply head_spec; lia | apply tail_spec, Hn].
Qed.

Lemma head_tail_positive_witness :
  0 < 2
  ∧ head test_df 2
    = take (Z.to_nat (Z.min 2 (Z.of_nat (length (data test_df))))) (data test_df)
  ∧ tail test_df 2
    = drop (length (data test_df) - Z.to_nat (Z.min 2 (Z.of_nat (length (data test_df)))))
           (data test_df).
Proof.
  assert (H : 0 < 2) by lia. split; [exact H|]. exact (head_tail_positive test_df 2 H).
Defined.

(** X3: a negative count is an offset from the other end: head(-k) returns
    all rows but the last k, and tail(-k) all rows but the first k. *)
Theorem head_tail_negative :
  ∀ (this : DataFrame) (k : Z),
    0 < k →
    head this (- k) = take (length (data this) - Z.to_nat k) (data this)
    ∧ tail this (- k) = drop (Z.to_nat k) (data this).
Proof.
  intros this k Hk. unfold head, tail, js_slice, slice_bound.
  set (len := length (data this)).
  change (0 <? 0) with false. cbv iota.
  destruct (Z.ltb_spec (- k) 0); [|lia].
  destruct (Z.ltb_spec (- - k) 0); [lia|].
  replace (Z.to_nat (Z.min 0 (Z.of_nat len))) with 0%nat by lia.
  rewrite drop_0, Nat.sub_0_r. split.
  - f_equal. lia.
  - rewrite Z.opp_involutive.
    destruct (Z.le_gt_cases k (Z.of_nat len)) as [Hle|Hgt].
    + rewrite Z.min_l by lia. apply take_ge. rewrite length_drop. lia.
    + rewrite Z.min_r by lia. rewrite Nat2Z.id.
      rewrite !drop_ge by lia. apply take_nil.
Qed.

Lemma head_tail_negative_witness :
  0 < 1
  ∧ head test_df (- 1) = take (length (data test_df) - Z.to_nat 1) (data test_df)
  ∧ tail test_df (- 1) = drop (Z.to_nat 1) (data test_df).
Proof.
  assert (H : 0 < 1) by lia. split; [exact H|]. exact (head_tail_negative test_df 1 H).
Defined.

(** ** Assignments to an object literal *)

Lemma prop_set_keys {A : Type} k (v : A) o :
  ∀ k', k' ∈ (prop_set k v o).*1 ↔ k' = k ∨ k' ∈ o.*1.
Proof.
  intros k'. induction o as [|[k'' v'] o IH]; simpl.
  - rewrite list_elem_of_singleton, elem_of_nil. tauto.
  - destruct (String.eqb_spec k k'') as [->|Hk]; simpl.
    + rewrite !elem_of_cons. tauto.
    + rewrite !elem_of_cons, IH. tauto.
Qed.

Lemma assign_keys kvs : ∀ obj k,
  k ∈ (assign kvs obj).*1 ↔ k ∈ obj.*1 ∨ k ∈ kvs.*1.
Proof.
  induction kvs as [|[k0 v0] kvs IH]; intros obj k; simpl.
  - rewrite elem_of_nil. tauto.
  - unfold assign in *. simpl. rewrite IH, prop_set_keys, elem_of_cons. tauto.
Qed.

Lemma assign_lookup_absent kvs : ∀ obj k,
  k ∉ kvs.*1 → prop_get k (assign kvs obj) = prop_get k obj.
Proof.
  induction kvs as [|[k0 v0] kvs IH]; intros obj k H; [reflexivity|].
  simpl in H. apply not_elem_of_cons in H as [Hne H].
  unfold assign in *. simpl. rewrite (IH _ _ H). apply prop_get_set_ne, Hne.
Qed.

(** The value read after the assignments is the value assigned, when every
    assignment to the key assigns that value. *)
Lemma assign_lookup kvs : ∀ obj k v,
  (k, v) ∈ kvs → (∀ v', (k, v') ∈ kvs → v' = v) →
  prop_get k (assign kvs obj) = Some v.
Proof.
  induction kvs as [|[k0 v0] kvs IH]; intros obj k v Hin Hall.
  - apply elem_of_nil in Hin. contradiction.
  - unfold assign in *. simpl. destruct (decide (k ∈ kvs.*1)) as [Hk|Hk].
    + apply list_elem_of_fmap in Hk as ([k1 v1] & -> & Hk). simpl in *.
      apply IH.
      * rewrite (Hall v1) in Hk by (right; exact Hk). exact Hk.
      * intros v' Hv'. apply Hall. right. exact Hv'.
    + fold (assign kvs (prop_set k0 v0 obj)). rewrite (assign_lookup_absent _ _ _ Hk).
      apply elem_of_cons in Hin as [[= -> ->]|Hin].
      * apply prop_get_set_eq.
      * exfalso. apply Hk. apply list_elem_of_fmap. exists (k, v). auto.
Qed.

Lemma assign_keys_fresh kvs : ∀ obj,
  NoDup (obj.*1 ++ kvs.*1) → (assign kvs obj).*1 = obj.*1 ++ kvs.*1.
Proof.
  induction kvs as [|[k0 v0] kvs IH]; intros obj Hnd; simpl.
  - rewrite app_nil_r. reflexivity.
  - unfold assign in *. simpl. simpl in Hnd.
    assert (Hk0 : k0 ∉ obj.*1).
    { apply NoDup_app in Hnd as (_ & Hnd & _). intros H. apply (Hnd _ H). left. }
    rewrite IH; rewrite (prop_set_absent_keys _ _ _ Hk0), <- app_assoc;
      [reflexivity | exact Hnd].
Qed.

Lemma pick_row_assign cols row : ∀ obj,
  is_record row = true →
  pick_row cols row obj = Ok (assign ((λ c, (c, field c row)) <$> cols) obj).
Proof.
  induction cols as [|c cols IH]; intros obj H; simpl; [reflexivity|].
  rewrite (get_prop_record _ _ H). simpl. apply IH, H.
Qed.

Lemma rename_row_assign mapping cols row : ∀ obj,
  is_record row = true →
  rename_row mapping cols row obj
  = Ok (assign ((λ c, (renamed mapping c, field c row)) <$> cols) obj).
Proof.
  induction cols as [|c cols IH]; intros obj H; simpl; [reflexivity|].
  rewrite (get_prop_record _ _ H). simpl. apply IH, H.
Qed.

Lemma fill_array_assign cols : ∀ i cells obj,
  fill_array cols i cells obj
  = assign (zip cols ((λ j, cell j cells) <$> seq i (length cols))) obj.
Proof.
  induction cols as [|c cols IH]; intros i cells obj; simpl; [reflexivity|].
  rewrite IH. reflexivity.
Qed.

(** The j-th of distinct column names reads the j-th cell. *)
Lemma grouped_record_field cols cells j name :
  NoDup cols → cols !! j = Some name →
  field name (grouped_record cols cells) = cell j cells.
Proof.
  intros Hnd Hj. unfold grouped_record, field. rewrite fill_array_assign.
  set (vals := (λ j, cell j cells) <$> seq 0 (length cols)).
  assert (Hlen : length vals = length cols).
  { unfold vals. rewrite length_fmap, length_seq. reflexivity. }
  assert (Hv : vals !! j = Some (cell j cells)).
  { unfold vals. rewrite list_lookup_fmap, lookup_seq_lt; [reflexivity|].
    eapply lookup_lt_Some, Hj. }
  rewrite (assign_lookup _ _ name (cell j cells)); [reflexivity| |].
  - apply list_elem_of_lookup. exists j. apply lookup_zip_with_Some. eauto.
  - intros v' Hv'. apply list_elem_of_lookup in Hv' as (j' & Hj').
    apply lookup_zip_with_Some in Hj' as (c & v & [= <- <-] & Hc & Hv'').
    rewrite (NoDup_lookup _ _ _ _ Hnd Hc Hj) in Hv''. congruence.
Qed.

Lemma grouped_record_keys cols cells :
  keys_within cols (grouped_record cols cells) = true.
Proof.
  unfold grouped_record, keys_within. rewrite fill_array_assign.
  apply forallb_forall. intros k Hk. apply bool_decide_eq_true.
  apply list_elem_of_In, assign_keys in Hk as [Hk|Hk].
  - apply elem_of_nil in Hk. contradiction.
  - apply list_elem_of_fmap in Hk as ([c v] & -> & Hk).
    apply elem_of_zip_l in Hk. exact Hk.
Qed.

Lemma grouped_record_columns cols cells :
  NoDup cols → has_columns cols (grouped_record cols cells) = true.
Proof.
  intros Hnd. apply bool_decide_eq_true. rewrite fill_array_assign.
  assert (E : (zip cols ((λ j, cell j cells) <$> seq 0 (length cols))).*1 = cols).
  { apply fst_zip. rewrite length_fmap, length_seq. reflexivity. }
  rewrite assign_keys_fresh; rewrite E; [reflexivity | exact Hnd].
Qed.

Lemma get_records this name :
  forallb is_record (data this) = true → name ∈ columns this →
  get this name = Ok (field name <$> data this).
Proof.
  intros Hrec Hin. unfold get, getColumnData.
  rewrite bool_decide_eq_true_2 by exact Hin. apply (getColumn_records this name Hrec).
Qed.

Lemma rows_match_columns_records this :
  rows_match_columns this = true → forallb is_record (data this) = true.
Proof.
  unfold rows_match_columns. rewrite !forallb_forall. intros H row Hrow.
  eapply keys_within_record, H, Hrow.
Qed.

(** ** Tables whose rows have the columns of the table *)

Lemma has_columns_spec cols row :
  has_columns cols row = true ↔ ∃ props, row = VObj props ∧ props.*1 = cols.
Proof.
  destruct row; simpl; try (split; [discriminate | intros (? & [=] & _)]).
  rewrite bool_decide_eq_true. split; [eauto | intros (? & [= <-] & H); exact H].
Qed.

Lemma has_columns_within cols row :
  has_columns cols row = true → keys_within cols row = true.
Proof.
  intros H. apply has_columns_spec in H as (props & -> & <-). simpl.
  apply forallb_forall. intros k Hk. apply bool_decide_eq_true, list_elem_of_In, Hk.
Qed.

Lemma filter_NoDup {A : Type} (f : A → bool) (l : list A) :
  NoDup l → NoDup (List.filter f l).
Proof.
  induction 1 as [|x l Hx Hl IH]; simpl; [constructor|].
  destruct (f x); [|exact IH]. constructor; [|exact IH].
  intros H. apply Hx. apply list_elem_of_In, filter_In in H as [H _].
  apply list_elem_of_In, H.
Qed.

Lemma plain_names_NoDup l : plain_names l = true → NoDup l.
Proof.
  unfold plain_names. rewrite andb_true_iff, bool_decide_eq_true. tauto.
Qed.

Lemma plain_names_filter (f : string → bool) l :
  plain_names l = true → plain_names (List.filter f l) = true.
Proof.
  unfold plain_names. rewrite !andb_true_iff, !bool_decide_eq_true, !forallb_forall.
  intros [Hnd Hall]. split; [apply filter_NoDup, Hnd|].
  intros k Hk. apply filter_In in Hk as [Hk _]. apply Hall, Hk.
Qed.

Lemma well_formed_spec this :
  well_formed this = true ↔
  plain_names (columns this) = true
  ∧ Forall (λ row, has_columns (columns this) row = true) (data this).
Proof.
  unfold well_formed.
  rewrite andb_true_iff, forallb_forall, Forall_forall.
  split; intros [H1 H2]; (split; [exact H1|]); intros row Hrow; apply H2;
    apply list_elem_of_In; exact Hrow.
Qed.

Lemma well_formed_match this :
  well_formed this = true → rows_match_columns this = true.
Proof.
  intros H. apply well_formed_spec in H as [_ H]. rewrite Forall_forall in H.
  apply forallb_forall. intros row Hrow. apply has_columns_within, H, list_elem_of_In, Hrow.
Qed.

Lemma well_formed_records this :
  well_formed this = true → forallb is_record (data this) = true.
Proof. intros H. apply rows_match_columns_records, well_formed_match, H. Qed.

Lemma fst_pairs {A B C : Type} (g : A → B) (f : A → C) (l : list A) :
  ((λ c, (g c, f c)) <$> l).*1 = g <$> l.
Proof. induction l as [|x l IH]; simpl; [reflexivity | f_equal; exact IH]. Qed.

Lemma NoDup_fmap_eq {A B : Type} (f : A → B) (l : list A) x y :
  NoDup (f <$> l) → x ∈ l → y ∈ l → f x = f y → x = y.
Proof.
  induction l as [|z l IH]; intros Hnd Hx Hy E.
  - apply elem_of_nil in Hx. contradiction.
  - simpl in Hnd. apply NoDup_cons in Hnd as [Hz Hnd].
    apply elem_of_cons in Hx as [->|Hx]; apply elem_of_cons in Hy as [->|Hy].
    + reflexivity.
    + exfalso. apply Hz. rewrite E. apply list_elem_of_fmap. eauto.
    + exfalso. apply Hz. rewrite <- E. apply list_elem_of_fmap. eauto.
    + apply IH; assumption.
Qed.

Lemma filter_filter_same {A : Type} (f : A → bool) (l : list A) :
  List.filter f (List.filter f l) = List.filter f l.
Proof.
  induction l as [|x l IH]; simpl; [reflexivity|].
  destruct (f x) eqn:E; simpl; rewrite ?E, IH; reflexivity.
Qed.

Lemma filter_filter_and {A : Type} (f g : A → bool) (l : list A) :
  List.filter g (List.filter f l) = List.filter (λ x, f x && g x) l.
Proof.
  induction l as [|x l IH]; simpl; [reflexivity|].
  destruct (f x) eqn:E; simpl; [destruct (g x)|]; rewrite IH; reflexivity.
Qed.

(** ** Construction from rows of cells *)

Lemma DataFrame_new_arrays cols first rest :
  ∃ df, DataFrame_new (VArr (VArr <$> first :: rest)) cols = Ok df
        ∧ columns df = chosen_columns cols first
        ∧ data df = grouped_record (chosen_columns cols first) <$> first :: rest.
Proof.
  unfold DataFrame_new.
  cbn [fmap list_fmap get_index lookup list_lookup default mbind result_bind].
  unfold id. cbn iota. fold (chosen_columns cols first).
  set (cs := chosen_columns cols first).
  change (VArr first :: (VArr <$> rest)) with (VArr <$> first :: rest).
  rewrite mapR_row_to_record_buckets.
  destruct (finish_construction_records cs (grouped_record cs <$> first :: rest)
              (grouped_records _ _)) as [dt Hdt].
  cbn [mbind result_bind]. rewrite Hdt. eauto.
Qed.

(** X4: constructed from rows of cells with as many names as the first row
    has cells, the names distinct and plain (not made of digits only, not
    the name of a member every object inherits), a table has these names
    as columns, one row per input row, every row a record with exactly the
    columns, and get of the j-th name returns the j-th cell of every row
    (undefined where a row is shorter). *)
Theorem constructor_cells :
  ∀ (names : list string) (first : list value) (rest : list (list value)),
    plain_names names = true → length names = length first →
    ∃ df,
      DataFrame_new (VArr (VArr <$> first :: rest)) (Some names) = Ok df
      ∧ columns df = names
      ∧ length (data df) = S (length rest)
      ∧ well_formed df = true
      ∧ (∀ j name, names !! j = Some name →
           get df name = Ok (cell j <$> first :: rest)).
Proof.
  intros names first rest Hplain Hlen. pose proof (plain_names_NoDup _ Hplain) as Hnd.
  destruct (DataFrame_new_arrays (Some names) first rest) as (df & Hdf & Hcols & Hdata).
  assert (Hcs : chosen_columns (Some names) first = names).
  { unfold chosen_columns. rewrite Hlen, Nat.eqb_refl. reflexivity. }
  rewrite Hcs in Hcols, Hdata.
  assert (Hmatch : well_formed df = true).
  { apply well_formed_spec. rewrite Hcols, Hdata. split; [exact Hplain|].
    apply Forall_fmap, Forall_forall. intros cells _.
    apply grouped_record_columns, Hnd. }
  exists df. split; [exact Hdf|]. split; [exact Hcols|]. split.
  { rewrite Hdata, length_fmap. reflexivity. }
  split; [exact Hmatch|].
  intros j name Hj. rewrite get_records.
  - rewrite Hdata, <- list_fmap_compose. f_equal.
    apply Forall_fmap_ext_1, Forall_forall. intros cells _. simpl.
    apply grouped_record_field; assumption.
  - apply well_formed_records, Hmatch.
  - rewrite Hcols. eapply list_elem_of_lookup_2, Hj.
Qed.

Lemma constructor_cells_witness :
  plain_names ["ID"; "Name"; "Age"] = true
  ∧ length ["ID"; "Name"; "Age"] = length [VNum 1; VStr "John"; VNum 25]
  ∧ ∃ df,
      DataFrame_new
        (VArr (VArr <$> [VNum 1; VStr "John"; VNum 25] :: [[VNum 2; VStr "Jane"]]))
        (Some ["ID"; "Name"; "Age"]) = Ok df
      ∧ columns df = ["ID"; "Name"; "Age"]
      ∧ length (data df) = S (length [[VNum 2; VStr "Jane"]])
      ∧ well_formed df = true
      ∧ (∀ j name, ["ID"; "Name"; "Age"] !! j = Some name →
           get df name
           = Ok (cell j <$> [VNum 1; VStr "John"; VNum 25] :: [[VNum 2; VStr "Jane"]])).
Proof.
  assert (H1 : plain_names ["ID"; "Name"; "Age"] = true) by (vm_compute; reflexivity).
  assert (H2 : length ["ID"; "Name"; "Age"] = length [VNum 1; VStr "John"; VNum 25])
    by reflexivity.
  split; [exact H1|]. split; [exact H2|].
  exact (constructor_cells ["ID"; "Name"; "Age"] [VNum 1; VStr "John"; VNum 25]
           [[VNum 2; VStr "Jane"]] H1 H2).
Defined.

Lemma auto_columns_NoDup n : NoDup (auto_columns n).
Proof.
  unfold auto_columns. apply NoDup_fmap_2_strong; [|apply NoDup_seq].
  intros i j _ _ H. apply (inj (String.append "column")) in H.
  apply (inj pretty) in H. lia.
Qed.

Lemma auto_name_plain (x : string) : plain_name ("column" +:+ x) = true.
Proof.
  change ("column" +:+ x) with (String "c" (String "o" (String "l" ("umn" +:+ x)))).
  unfold plain_name. apply andb_true_intro. split; [reflexivity|].
  apply negb_true_iff, bool_decide_eq_false. unfold Object_prototype_names. intros H.
  repeat (apply elem_of_cons in H as [H|H]; [discriminate H|]).
  apply elem_of_nil in H. exact H.
Qed.

Lemma auto_columns_plain n : plain_names (auto_columns n) = true.
Proof.
  unfold plain_names. apply andb_true_intro. split.
  - apply bool_decide_eq_true, auto_columns_NoDup.
  - apply forallb_forall. intros k Hk. unfold auto_columns in Hk.
    apply list_elem_of_In, list_elem_of_fmap in Hk as (i & -> & _). apply auto_name_plain.
Qed.

(** X5: when the names are omitted, or their number differs from the width
    of the first row, the columns of a table constructed from rows of cells
    are column1 .. columnN for the width N of the first row: N names, the
    i-th (from 0) being column followed by i + 1; they are distinct, and
    every row of the table has exactly these columns. *)
Theorem constructor_auto_names :
  ∀ (cols : option (list string)) (first : list value) (rest : list (list value)),
    (∀ cs, cols = Some cs → length cs ≠ length first) →
    ∃ df,
      DataFrame_new (VArr (VArr <$> first :: rest)) cols = Ok df
      ∧ length (columns df) = length first
      ∧ well_formed df = true
      ∧ (∀ i, (i < length first)%nat →
           columns df !! i = Some ("column" +:+ pretty (i + 1)%nat)).
Proof.
  intros cols first rest Hcols.
  destruct (DataFrame_new_arrays cols first rest) as (df & Hdf & Hc & Hd).
  assert (Hcs : chosen_columns cols first = auto_columns (length first)).
  { unfold chosen_columns. destruct cols as [cs|]; [|reflexivity].
    destruct (Nat.eqb_spec (length cs) (length first)) as [E|_]; [|reflexivity].
    exfalso. exact (Hcols cs eq_refl E). }
  rewrite Hcs in Hc, Hd. exists df. split; [exact Hdf|]. split; [|split].
  - rewrite Hc. unfold auto_columns. rewrite length_fmap, length_seq. reflexivity.
  - apply well_formed_spec. rewrite Hc, Hd. split; [apply auto_columns_plain|].
    apply Forall_fmap, Forall_forall. intros cells _.
    apply grouped_record_columns, auto_columns_NoDup.
  - rewrite Hc. intros i Hi. unfold auto_columns.
    rewrite list_lookup_fmap, lookup_seq_lt by exact Hi. reflexivity.
Qed.

Lemma constructor_auto_names_witness :
  (∀ cs, Some ["ID"] = Some cs → length cs ≠ length [VNum 1; VStr "John"])
  ∧ ∃ df,
      DataFrame_new (VArr (VArr <$> [VNum 1; VStr "John"] :: [])) (Some ["ID"]) = Ok df
      ∧ length (columns df) = length [VNum 1; VStr "John"]
      ∧ well_formed df = true
      ∧ (∀ i, (i < length [VNum 1; VStr "John"])%nat →
           columns df !! i = Some ("column" +:+ pretty (i + 1)%nat)).
Proof.
  assert (H : ∀ cs, Some ["ID"] = Some cs → length cs ≠ length [VNum 1; VStr "John"]).
  { intros cs [= <-]. discriminate. }
  split; [exact H|].
  exact (constructor_auto_names (Some ["ID"]) [VNum 1; VStr "John"] [] H).
Defined.



(** X7: a table constructed from rows of cells that all have as many cells
    as there are names, the names distinct and plain, hands the same rows
    of cells, in the same order, to the CSV writer. *)
Theorem toCSV_rows_of_cells :
  ∀ (names : list string) (first : list value) (rest : list (list value)),
    plain_names names = true →
    Forall (λ cells, length cells = length names) (first :: rest) →
    ∃ df,
      DataFrame_new (VArr (VArr <$> first :: rest)) (Some names) = Ok df
      ∧ toCSV_rows df = Ok (first :: rest).
Proof.
  intros names first rest Hplain Hall. pose proof (plain_names_NoDup _ Hplain) as Hnd.
  pose proof (Forall_inv Hall) as Hfirst. simpl in Hfirst.
  destruct (DataFrame_new_arrays (Some names) first rest) as (df & Hdf & Hcols & Hdata).
  assert (Hcs : chosen_columns (Some names) first = names).
  { unfold chosen_columns. rewrite Hfirst, Nat.eqb_refl. reflexivity. }
  rewrite Hcs in Hcols, Hdata. exists df. split; [exact Hdf|].
  unfold toCSV_rows. rewrite Hcols, Hdata. clear Hdf Hcols Hdata Hcs Hfirst.
  induction Hall as [|cells rows Hcells Hrows IH]; [reflexivity|].
  cbn [fmap list_fmap mapR].
  rewrite (mapR_pure _ (λ c, field c (grouped_record names cells))) by reflexivity.
  change (list_fmap _ _ (grouped_record names) rows)
    with (grouped_record names <$> rows).
  cbn [mbind result_bind]. rewrite IH. cbn [mbind result_bind].
  do 2 f_equal. apply list_eq. intros j. rewrite list_lookup_fmap.
  destruct (names !! j) as [name|] eqn:Hj; cbn [fmap option_fmap option_map].
  - rewrite (grouped_record_field names cells j name Hnd Hj). unfold cell.
    destruct (lookup_lt_is_Some_2 cells j) as [v ->]; [|reflexivity].
    rewrite Hcells. eapply lookup_lt_Some, Hj.
  - symmetry. apply lookup_ge_None. rewrite Hcells. apply lookup_ge_None, Hj.
Qed.

Lemma toCSV_rows_of_cells_witness :
  plain_names ["ID"; "Name"] = true
  ∧ Forall (λ cells, length cells = length ["ID"; "Name"])
           ([VNum 1; VStr "John"] :: [[VNum 2; VStr "Jane"]])
  ∧ ∃ df,
      DataFrame_new (VArr (VArr <$> [VNum 1; VStr "John"] :: [[VNum 2; VStr "Jane"]]))
        (Some ["ID"; "Name"]) = Ok df
      ∧ toCSV_rows df = Ok ([VNum 1; VStr "John"] :: [[VNum 2; VStr "Jane"]]).
Proof.
  assert (H1 : plain_names ["ID"; "Name"] = true) by (vm_compute; reflexivity).
  assert (H2 : Forall (λ cells, length cells = length ["ID"; "Name"])
                 ([VNum 1; VStr "John"] :: [[VNum 2; VStr "Jane"]])).
  { repeat constructor. }
  split; [exact H1|]. split; [exact H2|].
  exact (toCSV_rows_of_cells ["ID"; "Name"] [VNum 1; VStr "John"]
           [[VNum 2; VStr "Jane"]] H1 H2).
Defined.

(** *** The rows built by renameColumns, dropColumns and select *)

Lemma pick_rows cols rows :
  forallb is_record rows = true →
  mapR (λ row, VObj <$> pick_row cols row []) rows = Ok (picked_row cols <$> rows).
Proof.
  intros H. apply mapR_pure. intros row Hrow.
  rewrite pick_row_assign; [reflexivity|].
  rewrite forallb_forall in H. apply H, list_elem_of_In, Hrow.
Qed.

Lemma rename_rows mapping cols rows :
  forallb is_record rows = true →
  mapR (λ row, VObj <$> rename_row mapping cols row []) rows
  = Ok (renamed_row mapping cols <$> rows).
Proof.
  intros H. apply mapR_pure. intros row Hrow.
  rewrite rename_row_assign; [reflexivity|].
  rewrite forallb_forall in H. apply H, list_elem_of_In, Hrow.
Qed.

Lemma picked_row_field cols row c :
  c ∈ cols → field c (picked_row cols row) = field c row.
Proof.
  intros Hc. unfold picked_row. cbn [field].
  rewrite (assign_lookup _ _ c (field c row)); [reflexivity| |].
  - apply list_elem_of_fmap. exists c. auto.
  - intros v' Hv'. apply list_elem_of_fmap in Hv' as (c' & [= <- ->] & _). reflexivity.
Qed.

Lemma picked_row_within cols row : keys_within cols (picked_row cols row) = true.
Proof.
  unfold picked_row, keys_within. apply forallb_forall. intros k Hk.
  apply bool_decide_eq_true. apply list_elem_of_In, assign_keys in Hk as [Hk|Hk].
  - apply elem_of_nil in Hk. contradiction.
  - rewrite fst_pairs, list_fmap_id in Hk. exact Hk.
Qed.

Lemma picked_row_columns cols row :
  NoDup cols → has_columns cols (picked_row cols row) = true.
Proof.
  intros Hnd. apply bool_decide_eq_true.
  rewrite assign_keys_fresh; rewrite fst_pairs, list_fmap_id; [reflexivity | exact Hnd].
Qed.

Lemma picked_row_again cols row :
  picked_row cols (picked_row cols row) = picked_row cols row.
Proof.
  unfold picked_row at 1 3. do 2 f_equal.
  apply Forall_fmap_ext_1, Forall_forall. intros c Hc.
  rewrite (picked_row_field cols row c Hc). reflexivity.
Qed.

Lemma renamed_row_field mapping cols row c :
  NoDup (renamed mapping <$> cols) → c ∈ cols →
  field (renamed mapping c) (renamed_row mapping cols row) = field c row.
Proof.
  intros Hnd Hc. unfold renamed_row. cbn [field].
  rewrite (assign_lookup _ _ (renamed mapping c) (field c row)); [reflexivity| |].
  - apply list_elem_of_fmap. exists c. auto.
  - intros v' Hv'. apply list_elem_of_fmap in Hv' as (c' & [= E ->] & Hc').
    rewrite (NoDup_fmap_eq (renamed mapping) cols c c' Hnd Hc Hc' E). reflexivity.
Qed.

Lemma renamed_row_columns mapping cols row :
  NoDup (renamed mapping <$> cols) →
  has_columns (renamed mapping <$> cols) (renamed_row mapping cols row) = true.
Proof.
  intros Hnd. apply bool_decide_eq_true.
  rewrite assign_keys_fresh; rewrite fst_pairs; [reflexivity | exact Hnd].
Qed.

Lemma fmap_records (f : value → value) rows :
  (∀ row, is_record (f row) = true) → forallb is_record (f <$> rows) = true.
Proof.
  intros H. apply forallb_forall. intros row Hrow.
  apply list_elem_of_In, list_elem_of_fmap in Hrow as (r & -> & _). apply H.
Qed.

(** The constructor on rows that have the given distinct columns. *)
Lemma DataFrame_new_well_formed rows cols :
  plain_names cols = true → Forall (λ row, has_columns cols row = true) rows →
  ∃ df, DataFrame_new (VArr rows) (Some cols) = Ok df
        ∧ columns df = cols ∧ data df = rows ∧ well_formed df = true.
Proof.
  intros Hnd Hrows.
  destruct (DataFrame_new_records rows cols) as (df & Hdf & Hdata & Hcols).
  { apply forallb_forall. intros row Hrow. rewrite Forall_forall in Hrows.
    apply list_elem_of_In, Hrows, has_columns_spec in Hrow as (props & -> & _).
    reflexivity. }
  assert (Hc : columns df = cols).
  { rewrite Hcols. destruct Hrows as [|row rows' Hrow _]; [reflexivity|].
    apply has_columns_spec in Hrow as (props & -> & E). exact E. }
  exists df. split; [exact Hdf|]. split; [exact Hc|]. split; [exact Hdata|].
  apply well_formed_spec. rewrite Hc, Hdata. split; assumption.
Qed.

(** ** renameColumns *)

(** X8: on a table of records none of whose columns is named like a member
    every object inherits, a renaming that yields distinct plain names
    succeeds; it replaces each column name in place by its new name, keeps
    the number of rows, leaves a table all of whose rows have exactly the
    new columns, and the values of a column are read under its new name. *)
Theorem renameColumns_values :
  ∀ (this : DataFrame) (mapping : list (string * string)),
    forallb is_record (data this) = true →
    plain_names (renamed mapping <$> columns this) = true →
    Forall (λ c, c ∉ Object_prototype_names) (columns this) →
    ∃ this',
      renameColumns this mapping = (Ok (), this')
      ∧ columns this' = renamed mapping <$> columns this
      ∧ length (data this') = length (data this)
      ∧ well_formed this' = true
      ∧ (∀ c, c ∈ columns this → get this' (renamed mapping c) = get this c).
Proof.
  intros this mapping Hrec Hplain _. pose proof (plain_names_NoDup _ Hplain) as Hnd.
  unfold renameColumns. rewrite (rename_rows mapping (columns this) (data this) Hrec).
  assert (Hrec' : forallb is_record (renamed_row mapping (columns this) <$> data this) = true).
  { apply fmap_records. reflexivity. }
  destruct (assign_fields_records this (renamed mapping <$> columns this)
              (renamed_row mapping (columns this) <$> data this) Hrec')
    as (dt & -> & _).
  eexists. split; [reflexivity|]. cbn [columns data].
  split; [reflexivity|]. split; [apply length_fmap|]. split.
  - apply well_formed_spec. cbn [columns data]. split; [exact Hplain|].
    apply Forall_fmap, Forall_forall. intros row _. apply renamed_row_columns, Hnd.
  - intros c Hc. rewrite !get_records; cbn [columns data]; try assumption.
    + rewrite <- list_fmap_compose. f_equal.
      apply Forall_fmap_ext_1, Forall_forall. intros row _.
      apply renamed_row_field; assumption.
    + apply list_elem_of_fmap. eauto.
Qed.

Lemma renameColumns_values_witness :
  forallb is_record (data test_df) = true
  ∧ plain_names (renamed [("Name", "FullName")] <$> columns test_df) = true
  ∧ Forall (λ c, c ∉ Object_prototype_names) (columns test_df)
  ∧ ∃ this',
      renameColumns test_df [("Name", "FullName")] = (Ok (), this')
      ∧ columns this' = renamed [("Name", "FullName")] <$> columns test_df
      ∧ length (data this') = length (data test_df)
      ∧ well_formed this' = true
      ∧ (∀ c, c ∈ columns test_df →
           get this' (renamed [("Name", "FullName")] c) = get test_df c).
Proof.
  assert (H1 : forallb is_record (data test_df) = true) by reflexivity.
  assert (H2 : plain_names (renamed [("Name", "FullName")] <$> columns test_df) = true)
    by (vm_compute; reflexivity).
  assert (H3 : Forall (λ c, c ∉ Object_prototype_names) (columns test_df)).
  { apply (bool_decide_unpack _). vm_compute. exact I. }
  split; [exact H1|]. split; [exact H2|]. split; [exact H3|].
  exact (renameColumns_values test_df [("Name", "FullName")] H1 H2 H3).
Defined.

(** ** dropColumns *)

Lemma dropColumns_records this cols :
  forallb is_record (data this) = true →
  let kept := List.filter (λ c, negb (bool_decide (c ∈ to_array cols))) (columns this) in
  ∃ dt,
    dropColumns this cols
    = (Ok (), {| columns := kept; data := picked_row kept <$> data this; dtypes := dt |})
    ∧ detectColumnTypes
        {| columns := kept; data := picked_row kept <$> data this; dtypes := dtypes this |}
      = Ok dt.
Proof.
  intros Hrec kept. unfold dropColumns. fold kept.
  rewrite (pick_rows kept (data this) Hrec).
  assert (Hrec' : forallb is_record (picked_row kept <$> data this) = true).
  { apply fmap_records. reflexivity. }
  destruct (assign_fields_records this kept (picked_row kept <$> data this) Hrec')
    as (dt & Hdt & _).
  exists dt. split; [exact Hdt|].
  unfold assign_fields in Hdt.
  destruct (detectColumnTypes _) as [dt'|e]; [|discriminate].
  injection Hdt as Hdt. rewrite Hdt. reflexivity.
Qed.

(** X9: on a table of records none of whose columns is named like a member
    every object inherits, dropColumns succeeds; it keeps, in their order,
    the columns that are not listed, and the number of rows; every row of
    the table it leaves has only kept columns as keys; a kept column holds
    the values it held, and reading a listed column fails with 'Column
    does not exist'. *)
Theorem dropColumns_values :
  ∀ (this : DataFrame) (cols : names),
    forallb is_record (data this) = true →
    Forall (λ c, c ∉ Object_prototype_names) (columns this) →
    ∃ this',
      dropColumns this cols = (Ok (), this')
      ∧ columns this'
        = List.filter (λ c, negb (bool_decide (c ∈ to_array cols))) (columns this)
      ∧ length (data this') = length (data this)
      ∧ rows_match_columns this' = true
      ∧ (∀ c, c ∈ columns this → c ∉ to_array cols → get this' c = get this c)
      ∧ (∀ c, c ∈ to_array cols → get this' c = Throw ColumnNotFound).
Proof.
  intros this cols Hrec _.
  destruct (dropColumns_records this cols Hrec) as (dt & -> & _).
  set (kept := List.filter _ (columns this)).
  assert (Hkept : ∀ c, c ∈ kept ↔ c ∈ columns this ∧ c ∉ to_array cols).
  { intros c. unfold kept. rewrite !list_elem_of_In, filter_In, negb_true_iff,
      bool_decide_eq_false, <- !list_elem_of_In. reflexivity. }
  eexists. split; [reflexivity|]. cbn [columns data].
  split; [reflexivity|]. split; [apply length_fmap|]. split; [|split].
  - unfold rows_match_columns. cbn [columns data]. apply forallb_forall.
    intros row Hrow. apply list_elem_of_In, list_elem_of_fmap in Hrow as (r & -> & _).
    apply picked_row_within.
  - intros c Hc Hn. assert (Hk : c ∈ kept) by (apply Hkept; auto).
    rewrite !get_records; cbn [columns data]; try assumption.
    + rewrite <- list_fmap_compose. f_equal.
      apply Forall_fmap_ext_1, Forall_forall. intros row _.
      apply picked_row_field, Hk.
    + apply fmap_records. reflexivity.
  - intros c Hc. unfold get, getColumnData. cbn [columns].
    rewrite bool_decide_eq_false_2; [reflexivity|].
    intros Hk. apply Hkept in Hk as [_ Hn]. exact (Hn Hc).
Qed.

Lemma dropColumns_values_witness :
  forallb is_record (data test_df) = true
  ∧ Forall (λ c, c ∉ Object_prototype_names) (columns test_df)
  ∧ ∃ this',
      dropColumns test_df (OneName "Age") = (Ok (), this')
      ∧ columns this'
        = List.filter (λ c, negb (bool_decide (c ∈ to_array (OneName "Age"))))
            (columns test_df)
      ∧ length (data this') = length (data test_df)
      ∧ rows_match_columns this' = true
      ∧ (∀ c, c ∈ columns test_df → c ∉ to_array (OneName "Age") →
           get this' c = get test_df c)
      ∧ (∀ c, c ∈ to_array (OneName "Age") → get this' c = Throw ColumnNotFound).
Proof.
  assert (H : forallb is_record (data test_df) = true) by reflexivity.
  assert (H' : Forall (λ c, c ∉ Object_prototype_names) (columns test_df)).
  { apply (bool_decide_unpack _). vm_compute. exact I. }
  split; [exact H|]. split; [exact H'|].
  exact (dropColumns_values test_df (OneName "Age") H H').
Defined.

(** X10: dropping the same columns a second time changes nothing: on a
    table of records none of whose columns is named like a member every
    object inherits, the second call succeeds and leaves the table exactly
    as the first call left it (columns, rows and dtypes). *)
Theorem dropColumns_idempotent :
  ∀ (this this' : DataFrame) (cols : names),
    forallb is_record (data this) = true →
    Forall (λ c, c ∉ Object_prototype_names) (columns this) →
    dropColumns this cols = (Ok (), this') →
    dropColumns this' cols = (Ok (), this').
Proof.
  intros this this' cols Hrec _ Hdrop.
  destruct (dropColumns_records this cols Hrec) as (dt & E & Hdt). cbv zeta in E, Hdt.
  rewrite Hdrop in E. injection E as ->.
  set (kept := List.filter _ (columns this)) in *.
  assert (Hkk : List.filter (λ c, negb (bool_decide (c ∈ to_array cols))) kept = kept)
    by apply filter_filter_same.
  unfold dropColumns. cbn [columns data]. rewrite !Hkk.
  rewrite (pick_rows kept (picked_row kept <$> data this))
    by (apply fmap_records; reflexivity).
  rewrite <- list_fmap_compose.
  rewrite (list_fmap_ext (picked_row kept ∘ picked_row kept) (picked_row kept))
    by (intros; apply picked_row_again).
  unfold assign_fields. cbn [dtypes].
  unfold detectColumnTypes in *. cbn [columns] in *.
  rewrite (detectColumnTypes_loop_data _
             {| columns := kept; data := picked_row kept <$> data this;
                dtypes := dtypes this |}) by reflexivity.
  rewrite Hdt. reflexivity.
Qed.

Lemma dropColumns_idempotent_witness :
  forallb is_record (data test_df) = true
  ∧ Forall (λ c, c ∉ Object_prototype_names) (columns test_df)
  ∧ dropColumns test_df (OneName "Age")
    = (Ok (), (dropColumns test_df (OneName "Age")).2)
  ∧ dropColumns (dropColumns test_df (OneName "Age")).2 (OneName "Age")
    = (Ok (), (dropColumns test_df (OneName "Age")).2).
Proof.
  assert (H1 : forallb is_record (data test_df) = true) by reflexivity.
  assert (H2 : dropColumns test_df (OneName "Age")
               = (Ok (), (dropColumns test_df (OneName "Age")).2))
    by (vm_compute; reflexivity).
  assert (H3 : Forall (λ c, c ∉ Object_prototype_names) (columns test_df)).
  { apply (bool_decide_unpack _). vm_compute. exact I. }
  split; [exact H1|]. split; [exact H3|]. split; [exact H2|].
  exact (dropColumns_idempotent test_df _ (OneName "Age") H1 H3 H2).
Defined.

(** ** select *)

(** X11: on a table of records, select with distinct plain names (not made
    of digits only, not the name of a member every object inherits)
    returns a table whose columns are the listed names that are columns of
    the receiver, in the order they are listed; it has as many rows, each
    with exactly these columns, and a selected column holds the values it
    holds in the receiver. *)
Theorem select_values :
  ∀ (this : DataFrame) (sel : names),
    forallb is_record (data this) = true →
    plain_names (to_array sel) = true →
    ∃ df,
      select this sel = Ok df
      ∧ columns df = List.filter (λ c, bool_decide (c ∈ columns this)) (to_array sel)
      ∧ length (data df) = length (data this)
      ∧ well_formed df = true
      ∧ (∀ c, c ∈ to_array sel → c ∈ columns this → get df c = get this c).
Proof.
  intros this sel Hrec Hplain. unfold select.
  set (chosen := List.filter _ (to_array sel)).
  assert (Hchosen : ∀ c, c ∈ chosen ↔ c ∈ to_array sel ∧ c ∈ columns this).
  { intros c. unfold chosen. rewrite !list_elem_of_In, filter_In,
      bool_decide_eq_true, <- !list_elem_of_In. reflexivity. }
  assert (Hplain' : plain_names chosen = true) by (apply plain_names_filter, Hplain).
  pose proof (plain_names_NoDup _ Hplain') as Hnd'.
  rewrite (pick_rows chosen (data this) Hrec). cbn [mbind result_bind].
  destruct (DataFrame_new_well_formed (picked_row chosen <$> data this) chosen Hplain')
    as (df & Hdf & Hcols & Hdata & Hwf).
  { apply Forall_fmap, Forall_forall. intros row _. apply picked_row_columns, Hnd'. }
  exists df. split; [exact Hdf|]. split; [exact Hcols|]. split.
  { rewrite Hdata. apply length_fmap. }
  split; [exact Hwf|].
  intros c Hc Hin. rewrite !get_records; try assumption.
  - rewrite Hdata, <- list_fmap_compose. f_equal.
    apply Forall_fmap_ext_1, Forall_forall. intros row _.
    apply picked_row_field, Hchosen. auto.
  - apply well_formed_records, Hwf.
  - rewrite Hcols. apply Hchosen. auto.
Qed.

Lemma select_values_witness :
  forallb is_record (data test_df) = true
  ∧ plain_names (to_array (ManyNames ["Age"; "Name"; "Height"])) = true
  ∧ ∃ df,
      select test_df (ManyNames ["Age"; "Name"; "Height"]) = Ok df
      ∧ columns df = List.filter (λ c, bool_decide (c ∈ columns test_df))
                       (to_array (ManyNames ["Age"; "Name"; "Height"]))
      ∧ length (data df) = length (data test_df)
      ∧ well_formed df = true
      ∧ (∀ c, c ∈ to_array (ManyNames ["Age"; "Name"; "Height"]) →
           c ∈ columns test_df → get df c = get test_df c).
Proof.
  assert (H1 : forallb is_record (data test_df) = true) by reflexivity.
  assert (H2 : plain_names (to_array (ManyNames ["Age"; "Name"; "Height"])) = true)
    by (vm_compute; reflexivity).
  split; [exact H1|]. split; [exact H2|].
  exact (select_values test_df (ManyNames ["Age"; "Name"; "Height"]) H1 H2).
Defined.

(** ** filter *)

(** X12: on a table whose columns are distinct plain names and whose rows
    all have exactly these columns, filter returns a table with the same
    columns whose rows are the rows the condition accepts, in their order;
    and filtering the result by a second condition gives the same table as
    filtering the receiver by the conjunction of the two. *)
Theorem filter_rows_values :
  ∀ (this : DataFrame) (c1 c2 : value → bool),
    well_formed this = true →
    ∃ df1 df2,
      filter_rows this c1 = Ok df1
      ∧ columns df1 = columns this
      ∧ data df1 = List.filter c1 (data this)
      ∧ well_formed df1 = true
      ∧ filter_rows df1 c2 = Ok df2
      ∧ filter_rows this (λ row, c1 row && c2 row) = Ok df2.
Proof.
  intros this c1 c2 Hwf. pose proof Hwf as Hwf0.
  apply well_formed_spec in Hwf as [Hnd Hrows].
  assert (Hsub : ∀ c, Forall (λ row, has_columns (columns this) row = true)
                        (List.filter c (data this))).
  { intros c. rewrite Forall_forall in *. intros row Hrow.
    apply list_elem_of_In, filter_In in Hrow as [Hrow _].
    apply Hrows, list_elem_of_In, Hrow. }
  unfold filter_rows.
  destruct (DataFrame_new_well_formed (List.filter c1 (data this)) (columns this) Hnd
              (Hsub c1)) as (df1 & Hdf1 & Hcols1 & Hdata1 & Hwf1).
  destruct (DataFrame_new_well_formed (List.filter (λ row, c1 row && c2 row) (data this))
              (columns this) Hnd (Hsub _)) as (df2 & Hdf2 & _).
  exists df1, df2. rewrite Hdf1, Hcols1, Hdata1, filter_filter_and. auto 10.
Qed.

Lemma filter_rows_values_witness :
  well_formed test_df = true
  ∧ ∃ df1 df2,
      filter_rows test_df (age_above 25) = Ok df1
      ∧ columns df1 = columns test_df
      ∧ data df1 = List.filter (age_above 25) (data test_df)
      ∧ well_formed df1 = true
      ∧ filter_rows df1 (age_above 30) = Ok df2
      ∧ filter_rows test_df (λ row, age_above 25 row && age_above 30 row) = Ok df2.
Proof.
  assert (H : well_formed test_df = true) by (vm_compute; reflexivity).
  split; [exact H|].
  exact (filter_rows_values test_df (age_above 25) (age_above 30) H).
Defined.

(** ** sortBy *)

Lemma DataFrame_new_records_eq rows cols :
  forallb is_record rows = true →
  DataFrame_new (VArr rows) (Some cols)
  = finish_construction
      (match rows with VObj props :: _ => props.*1 | _ => cols end) rows.
Proof.
  intros H. unfold DataFrame_new. destruct rows as [|row rows]; [reflexivity|].
  simpl in H. apply andb_prop in H as [Hrow _].
  destruct row; try discriminate. reflexivity.
Qed.

Lemma sortBy_typed this cols asc :
  forallb is_record (data this) = true → typed_rows cols (data this) →
  sortBy this cols asc
  = DataFrame_new (VArr (sort_pure (compare_keys cols asc) (data this)))
      (Some (columns this)).
Proof.
  intros Hrec Ht. unfold sortBy, Array_sort. rewrite (filter_defined_records _ Hrec).
  rewrite (insertion_sort_pure _ (compare_keys cols asc)).
  - simpl. rewrite Nat.sub_diag. simpl. rewrite app_nil_r. reflexivity.
  - intros a b Ha Hb. rewrite forallb_forall in Hrec.
    eapply compareRows_typed; try eassumption; apply Hrec, list_elem_of_In; assumption.
Qed.

Lemma sorted_rows cols asc rows :
  typed_rows cols rows →
  StronglySorted (λ a b, compare_keys cols asc a b ≤ 0)
    (sort_pure (compare_keys cols asc) rows).
Proof.
  intros Ht. apply (sort_pure_sorted (compare_keys cols asc) (λ r, r ∈ rows)).
  - intros a b _ _. apply compare_keys_antisym.
  - intros a b d Pa Pb Pd. eapply compare_keys_trans; eassumption.
  - apply Forall_forall. auto.
Qed.

(** Sorting leaves a sorted sequence as it is. *)
Lemma sort_pure_fixed (c : value → value → Z) l :
  (∀ a b, c b a = - c a b) →
  StronglySorted (λ a b, c a b ≤ 0) l → sort_pure c l = l.
Proof.
  intros Hanti. induction 1 as [|x l Hl IH Hx]; simpl; [reflexivity|].
  rewrite IH. destruct l as [|y ys]; [reflexivity|]. simpl.
  apply Forall_cons in Hx as [Hxy _]. rewrite Hanti.
  destruct (Z.ltb_spec (- c x y) 0); [lia | reflexivity].
Qed.

Lemma typed_rows_perm cols rows rows' :
  rows ≡ₚ rows' → typed_rows cols rows' → typed_rows cols rows.
Proof.
  intros Hperm Ht column a b Hc Ha Hb. rewrite Hperm in Ha, Hb. apply Ht; assumption.
Qed.

(** X13: on a table of records whose sort columns each hold values of a
    single primitive type (and are not named like a member every object
    inherits), sortBy returns a table that sorting again by the same
    columns in the same direction returns unchanged (columns, rows and
    dtypes).  If the columns of the receiver are distinct plain names and
    all its rows have exactly these columns, the result has the columns of
    the receiver and its rows have exactly these columns too. *)
Theorem sortBy_idempotent :
  ∀ (this : DataFrame) (cols : list string) (ascending : bool),
    forallb is_record (data this) = true →
    sortable cols (data this) = true →
    Forall (λ c, c ∉ Object_prototype_names) cols →
    ∃ df,
      sortBy this cols ascending = Ok df
      ∧ sortBy df cols ascending = Ok df
      ∧ (well_formed this = true →
         columns df = columns this ∧ well_formed df = true).
Proof.
  intros this cols asc Hrec Hsort _. pose proof (sortable_typed _ _ Hsort) as Ht.
  pose proof (sort_pure_perm (compare_keys cols asc) (data this)) as Hperm.
  pose proof (sorted_rows cols asc (data this) Ht) as Hsorted.
  pose proof (records_perm _ _ Hperm Hrec) as Hrec'.
  rewrite (sortBy_typed this cols asc Hrec Ht).
  revert Hperm Hsorted Hrec'.
  generalize (sort_pure (compare_keys cols asc) (data this)). intros sorted Hperm Hsorted Hrec'.
  destruct (DataFrame_new_records sorted (columns this) Hrec')
    as (df & Hdf & Hdata & Hcols).
  exists df. split; [exact Hdf|]. split.
  - rewrite sortBy_typed.
    + rewrite Hdata, (sort_pure_fixed _ sorted);
        [| intros; apply compare_keys_antisym | exact Hsorted].
      rewrite <- Hdf, !DataFrame_new_records_eq by exact Hrec'. f_equal.
      rewrite Hcols. destruct sorted as [|[] ?]; reflexivity.
    + rewrite Hdata. exact Hrec'.
    + rewrite Hdata. eapply typed_rows_perm; eassumption.
  - intros Hwf. apply well_formed_spec in Hwf as [Hnd Hrows].
    destruct (DataFrame_new_well_formed sorted (columns this) Hnd) as (df' & Hdf' & Hc & _ & Hwf').
    { rewrite Hperm. exact Hrows. }
    rewrite Hdf in Hdf'. injection Hdf' as <-. split; assumption.
Qed.

Lemma sortBy_idempotent_witness :
  forallb is_record (data test_df) = true
  ∧ sortable ["Age"] (data test_df) = true
  ∧ Forall (λ c, c ∉ Object_prototype_names) ["Age"]
  ∧ ∃ df,
      sortBy test_df ["Age"] false = Ok df
      ∧ sortBy df ["Age"] false = Ok df
      ∧ (well_formed test_df = true →
         columns df = columns test_df ∧ well_formed df = true).
Proof.
  assert (H1 : forallb is_record (data test_df) = true) by reflexivity.
  assert (H2 : sortable ["Age"] (data test_df) = true) by (vm_compute; reflexivity).
  assert (H3 : Forall (λ c, c ∉ Object_prototype_names) ["Age"]).
  { apply (bool_decide_unpack _). vm_compute. exact I. }
  split; [exact H1|]. split; [exact H2|]. split; [exact H3|].
  exact (sortBy_idempotent test_df ["Age"] false H1 H2 H3).
Defined.






(** ** aggregate *)

Lemma prop_set_absent {A : Type} key (v : A) m :
  key ∉ m.*1 → prop_set key v m = (m ++ [(key, v)])%list.
Proof.
  induction m as [|[k b] m IH]; simpl; intros H; [reflexivity|].
  apply not_elem_of_cons in H as [Hne Hm].
  destruct (String.eqb_spec key k); [contradiction|]. f_equal. apply IH, Hm.
Qed.

Lemma assign_fresh kvs : ∀ obj,
  NoDup (obj.*1 ++ kvs.*1) → assign kvs obj = (obj ++ kvs)%list.
Proof.
  induction kvs as [|[k0 v0] kvs IH]; intros obj Hnd.
  - rewrite app_nil_r. reflexivity.
  - unfold assign in *. simpl. simpl in Hnd.
    assert (Hk0 : k0 ∉ obj.*1).
    { apply NoDup_app in Hnd as (_ & Hnd & _). intros H. apply (Hnd _ H). left. }
    rewrite (prop_set_absent _ _ _ Hk0), IH.
    + rewrite <- app_assoc. reflexivity.
    + rewrite fmap_app, <- app_assoc. exact Hnd.
Qed.

Lemma aggregate_loop_reducers this entries : ∀ acc,
  forallb is_record (data this) = true →
  forallb (λ e, is_reducer e.2) entries = true →
  aggregate_loop this entries acc
  = Ok (assign ((λ e, (e.1, reduce_with e.2 (field e.1 <$> data this))) <$> entries) acc).
Proof.
  induction entries as [|[name a] entries IH]; intros acc Hrec Hall; [reflexivity|].
  simpl in Hall. apply andb_prop in Hall as [Ha Hall].
  destruct a as [f|]; [|discriminate]. simpl.
  rewrite (getColumn_records this name Hrec). simpl. apply IH; assumption.
Qed.

Lemma aggregate_loop_fails this before c after : ∀ acc,
  forallb is_record (data this) = true →
  forallb (λ e, is_reducer e.2) before = true →
  aggregate_loop this (before ++ (c, NotAFunction) :: after) acc
  = Throw (InvalidAggregationFunction c).
Proof.
  induction before as [|[name a] before IH]; intros acc Hrec Hall; [reflexivity|].
  simpl in Hall. apply andb_prop in Hall as [Ha Hall].
  destruct a as [f|]; [|discriminate]. simpl.
  rewrite (getColumn_records this name Hrec). simpl. apply IH; assumption.
Qed.

(** X15: on a table of records, for an aggregations object whose keys are
    plain names: if every entry is a function, aggregate returns an object
    with the same keys in the same order, each holding what its function
    returns on the values of the column of that name (undefined for every
    row that lacks it); if some entry is not a function, aggregate fails
    with 'Invalid aggregation function' naming the first such key, whatever
    the entries after it. *)
Theorem aggregate_values :
  ∀ (this : DataFrame) (aggregations : list (string * aggregation)),
    forallb is_record (data this) = true →
    plain_names aggregations.*1 = true →
    (forallb (λ e, is_reducer e.2) aggregations = true →
     aggregate this aggregations
     = Ok ((λ e, (e.1, reduce_with e.2 (field e.1 <$> data this))) <$> aggregations))
    ∧ (∀ before c after,
         aggregations = (before ++ (c, NotAFunction) :: after)%list →
         forallb (λ e, is_reducer e.2) before = true →
         aggregate this aggregations = Throw (InvalidAggregationFunction c)).
Proof.
  intros this aggregations Hrec Hplain. split.
  - intros Hall. unfold aggregate. rewrite aggregate_loop_reducers by assumption.
    rewrite assign_fresh; [reflexivity|]. simpl. rewrite fst_pairs.
    exact (plain_names_NoDup _ Hplain).
  - intros before c after -> Hall. apply aggregate_loop_fails; assumption.
Qed.

Lemma aggregate_values_witness :
  forallb is_record (data test_df) = true
  ∧ plain_names [("Age", Reducer max_reducer); ("Name", NotAFunction)].*1 = true
  ∧ (forallb (λ e, is_reducer e.2)
       [("Age", Reducer max_reducer); ("Name", NotAFunction)] = true →
     aggregate test_df [("Age", Reducer max_reducer); ("Name", NotAFunction)]
     = Ok ((λ e, (e.1, reduce_with e.2 (field e.1 <$> data test_df)))
           <$> [("Age", Reducer max_reducer); ("Name", NotAFunction)]))
  ∧ (∀ before c after,
       [("Age", Reducer max_reducer); ("Name", NotAFunction)]
       = (before ++ (c, NotAFunction) :: after)%list →
       forallb (λ e, is_reducer e.2) before = true →
       aggregate test_df [("Age", Reducer max_reducer); ("Name", NotAFunction)]
       = Throw (InvalidAggregationFunction c)).
Proof.
  assert (H1 : forallb is_record (data test_df) = true) by reflexivity.
  assert (H2 : plain_names [("Age", Reducer max_reducer); ("Name", NotAFunction)].*1 = true)
    by (vm_compute; reflexivity).
  split; [exact H1|]. split; [exact H2|].
  exact (aggregate_values test_df [("Age", Reducer max_reducer); ("Name", NotAFunction)]
           H1 H2).
Defined.

(** ** Statistics *)



(** *** mode *)

Lemma mode_loop_members l : ∀ m mx ms v,
  v ∈ mode_loop l m mx ms → v ∈ ms ∨ v ∈ l.
Proof.
  induction l as [|x l IH]; intros m mx ms v H; simpl in H; [left; exact H|].
  rewrite elem_of_cons.
  repeat case_match; apply IH in H as [H|H]; auto;
    first [ apply list_elem_of_singleton in H; auto
          | apply elem_of_app in H as [H|H];
            [auto | apply list_elem_of_singleton in H; auto] ].
Qed.

Lemma mode_loop_nonempty l : ∀ m mx ms, ms ≠ [] → mode_loop l m mx ms ≠ [].
Proof.
  induction l as [|x l IH]; intros m mx ms H; simpl; [exact H|].
  repeat case_match; apply IH; try exact H; try discriminate;
    intros E; apply app_eq_nil in E as [_ E]; discriminate.
Qed.

Lemma mode_loop_empty l : ∀ m,
  mode_loop l m 0%nat [] = [] ↔ forallb inherited_key l = true.
Proof.
  induction l as [|x l IH]; intros m; simpl; [tauto|].
  unfold inherited_key at 1. case_bool_decide as Hx; simpl; [apply IH|].
  split; [|discriminate]. intros H. exfalso. revert H.
  destruct (m !! ToString x) as [n|]; simpl;
    (destruct (Nat.ltb_spec 0 (n + 1)) || destruct (Nat.ltb_spec 0 1)); try lia;
    apply mode_loop_nonempty; discriminate.
Qed.

(** X17: whatever the values of the column, every mode that mode returns
    is a value of the column, and mode returns the empty array exactly
    when the property key of every value of the column is the name of a
    member every object inherits (in particular for a column without
    values). *)
Theorem mode_members :
  ∀ (this : DataFrame) (name : string) (vals : list value),
    getColumn this name = Ok vals →
    ∃ ms,
      mode this name = Ok ms
      ∧ (∀ v, v ∈ ms → v ∈ vals)
      ∧ (ms = [] ↔ forallb inherited_key vals = true).
Proof.
  intros this name vals Hvals. unfold mode. rewrite Hvals. simpl.
  eexists. split; [reflexivity|]. split.
  - intros v Hv. apply mode_loop_members in Hv as [Hv|Hv]; [|exact Hv].
    apply elem_of_nil in Hv. contradiction.
  - apply mode_loop_empty.
Qed.

Lemma mode_members_witness :
  getColumn test_df "Age" = Ok [VNum 25; VNum 30; VNum 28]
  ∧ ∃ ms,
      mode test_df "Age" = Ok ms
      ∧ (∀ v, v ∈ ms → v ∈ [VNum 25; VNum 30; VNum 28])
      ∧ (ms = [] ↔ forallb inherited_key [VNum 25; VNum 30; VNum 28] = true).
Proof.
  assert (H : getColumn test_df "Age" = Ok [VNum 25; VNum 30; VNum 28])
    by (vm_compute; reflexivity).
  split; [exact H|]. exact (mode_members test_df "Age" _ H).
Defined.

(** ** dtypes *)




(** ** The grouping loop of groupBy *)

Lemma filter_partition {A : Type} (f : A → bool) (l : list A) :
  l ≡ₚ List.filter f l ++ List.filter (λ x, negb (f x)) l.
Proof.
  induction l as [|x l IH]; simpl; [reflexivity|].
  destruct (f x); simpl.
  - constructor. exact IH.
  - rewrite <- Permutation_middle. constructor. exact IH.
Qed.

Lemma prop_get_member {A : Type} (m : list (string * A)) k b :
  NoDup m.*1 → (k, b) ∈ m → prop_get k m = Some b.
Proof.
  induction m as [|[k' b'] m IH]; intros Hnd Hin.
  - apply elem_of_nil in Hin. contradiction.
  - simpl in Hnd. apply NoDup_cons in Hnd as [Hk' Hnd]. simpl.
    apply elem_of_cons in Hin as [[= -> ->]|Hin].
    + rewrite String.eqb_refl. reflexivity.
    + destruct (String.eqb_spec k k') as [->|_]; [|apply IH; assumption].
      exfalso. apply Hk'. apply list_elem_of_fmap. exists (k', b). auto.
Qed.

Lemma buckets_partition cols keys : ∀ rows,
  NoDup keys → (∀ row, row ∈ rows → row_key cols row ∈ keys) →
  concat (bucket cols rows <$> keys) ≡ₚ rows.
Proof.
  induction keys as [|k keys IH]; intros rows Hnd Hall.
  - destruct rows as [|row rows]; [reflexivity|].
    exfalso. eapply elem_of_nil, (Hall row). left.
  - apply NoDup_cons in Hnd as [Hk Hnd]. cbn [fmap list_fmap concat].
    rewrite (filter_partition (λ row, String.eqb (row_key cols row) k) rows) at 3.
    apply Permutation_app; [reflexivity|].
    set (others := List.filter (λ row, negb (String.eqb (row_key cols row) k)) rows).
    assert (E : bucket cols rows <$> keys = bucket cols others <$> keys).
    { apply Forall_fmap_ext_1, Forall_forall.
      intros k' Hk'. unfold bucket, others. rewrite filter_filter_and.
      apply filter_ext. intros row.
      destruct (String.eqb_spec (row_key cols row) k) as [->|_]; [|reflexivity].
      destruct (String.eqb_spec k k') as [->|_]; [contradiction | reflexivity]. }
    rewrite E. apply (IH others Hnd).
    intros row Hrow. unfold others in Hrow.
    apply list_elem_of_In, filter_In in Hrow as [Hrow Hne].
    apply list_elem_of_In, Hall, elem_of_cons in Hrow as [E'|Hrow]; [|exact Hrow].
    rewrite E', String.eqb_refl in Hne. discriminate.
Qed.

(** X19: on a table of records (the grouping columns not named like a
    member every object inherits), the loop of groupBy ends with a map
    whose keys are distinct, whose buckets are not empty, each bucket
    holding, in row order, exactly the rows whose key is the key of the
    bucket; together the buckets hold every row once. *)
Theorem group_loop_partitions :
  ∀ (cols : list string) (rows : list value),
    forallb is_record rows = true →
    Forall (λ c, c ∉ Object_prototype_names) cols →
    ∃ groups,
      group_loop cols rows [] = Ok groups
      ∧ NoDup groups.*1
      ∧ concat groups.*2 ≡ₚ rows
      ∧ (∀ key b, (key, b) ∈ groups → b ≠ [] ∧ b = bucket cols rows key).
Proof.
  intros cols rows Hrec _.
  destruct (group_loop_buckets cols rows Hrec) as (groups & Hgroups & Hbuckets).
  pose proof Hgroups as Hfold. rewrite group_loop_records in Hfold by exact Hrec.
  injection Hfold as Hfold.
  assert (Hkeys : groups.*1 = group_keys cols rows).
  { rewrite <- Hfold. apply group_fold_keys. }
  assert (Hnd : NoDup groups.*1).
  { rewrite Hkeys. apply fold_set_add_NoDup. constructor. }
  exists groups. split; [exact Hgroups|]. split; [exact Hnd|]. split.
  - rewrite Hbuckets. unfold group_buckets. apply buckets_partition.
    + rewrite <- Hkeys. exact Hnd.
    + intros row Hrow. unfold group_keys, Set_values.
      apply fold_set_add_elem. right. apply list_elem_of_fmap. eauto.
  - intros key b Hin. pose proof (prop_get_member groups key b Hnd Hin) as Hget.
    rewrite <- Hfold, group_fold_lookup in Hget. simpl in Hget.
    case_bool_decide as Hkey; [|discriminate]. injection Hget as <-.
    split; [|reflexivity].
    apply list_elem_of_fmap in Hkey as (row & -> & Hrow).
    intros E. assert (Hin' : In row (bucket cols rows (row_key cols row))).
    { apply filter_In. split; [apply list_elem_of_In, Hrow | apply String.eqb_refl]. }
    rewrite E in Hin'. exact Hin'.
Qed.

Lemma group_loop_partitions_witness :
  forallb is_record (data test_df) = true
  ∧ Forall (λ c, c ∉ Object_prototype_names) ["Age"]
  ∧ ∃ groups,
      group_loop ["Age"] (data test_df) [] = Ok groups
      ∧ NoDup groups.*1
      ∧ concat groups.*2 ≡ₚ data test_df
      ∧ (∀ key b, (key, b) ∈ groups →
           b ≠ [] ∧ b = bucket ["Age"] (data test_df) key).
Proof.
  assert (H1 : forallb is_record (data test_df) = true) by reflexivity.
  assert (H2 : Forall (λ c, c ∉ Object_prototype_names) ["Age"]).
  { apply (bool_decide_unpack _). vm_compute. exact I. }
  split; [exact H1|]. split; [exact H2|].
  exact (group_loop_partitions ["Age"] (data test_df) H1 H2).
Defined.

(** *** median *)









(** ** Rebuilding a table from its rows *)

Lemma filter_all {A : Type} (l : list A) : List.filter (λ _, true) l = l.
Proof. induction l as [|x l IH]; simpl; [reflexivity | f_equal; exact IH]. Qed.

(** X21: at every point of its life, an instance whose columns are distinct
    plain names and whose rows all have exactly these columns is rebuilt
    as it is (columns, rows and dtypes) by the constructor from its rows
    and its columns, and so by a filter that accepts every row. *)
Theorem rebuild_from_rows :
  ∀ (w : world) (l : nat) (this : DataFrame),
    reachable w → heap w !! l = Some this → well_formed this = true →
    DataFrame_new (VArr (getDataFrame this)) (Some (columns this)) = Ok this
    ∧ filter_rows this (λ _, true) = Ok this.
Proof.
  intros w l this Hw Hl Hwf.
  pose proof (reachable_dtypes w Hw l this Hl) as Hdt.
  assert (Hnew : DataFrame_new (VArr (data this)) (Some (columns this)) = Ok this).
  { rewrite DataFrame_new_records_eq by (apply well_formed_records, Hwf).
    apply well_formed_spec in Hwf as [_ Hrows].
    assert (E : match data this with VObj props :: _ => props.*1 | _ => columns this end
                = columns this).
    { destruct Hrows as [|row rows Hrow _]; [reflexivity|].
      apply has_columns_spec in Hrow as (props & -> & E). exact E. }
    rewrite E. unfold finish_construction, detectColumnTypes. cbn [columns].
    unfold dtypes_current, detectColumnTypes in Hdt.
    rewrite (detectColumnTypes_loop_data _ this) by reflexivity.
    rewrite Hdt. destruct this. reflexivity. }
  split; [exact Hnew|]. unfold filter_rows. rewrite filter_all. exact Hnew.
Qed.

Lemma rebuild_from_rows_witness :
  reachable world_constructed
  ∧ heap world_constructed !! 0%nat = Some test_df
  ∧ well_formed test_df = true
  ∧ DataFrame_new (VArr (getDataFrame test_df)) (Some (columns test_df)) = Ok test_df
  ∧ filter_rows test_df (λ _, true) = Ok test_df.
Proof.
  assert (H1 : reachable world_constructed) by (repeat constructor).
  assert (H2 : heap world_constructed !! 0%nat = Some test_df) by by_computation.
  assert (H3 : well_formed test_df = true) by by_computation.
  split; [exact H1|]. split; [exact H2|]. split; [exact H3|].
  exact (rebuild_from_rows world_constructed 0%nat test_df H1 H2 H3).
Defined.
